(** * Arabic-GEC: a shallow embedding of the correction service

    The development follows the layered application under [src/app]:
    Python strings and the response extraction utility, the inference
    service with its two-tier generation, the request schema, the
    persistence service over the hosted table store, and the JSON and HTML
    route handlers.  Definitions come first, theorems after. *)

From Stdlib Require Import List NArith ZArith Bool Lia String Ascii.
From Stdlib Require Import Permutation Sorted.
Import ListNotations.


(** ** Python strings *)

(** A Python [str] is a sequence of Unicode code points. *)
Module PyStr.

Definition char := N.
Definition str := list char.

(** ASCII literals of the source, as code points. *)
Definition lit (s : string) : str := map N_of_ascii (list_ascii_of_string s).

(** The newline character of the source's escapes. *)
Definition NL : str := [10%N].

Definition eqb (a b : str) : bool :=
  if list_eq_dec N.eq_dec a b then true else false.

(** [str.isspace] on one code point: CPython's whitespace table. *)
Definition isspace (c : char) : bool :=
  ((9 <=? c) && (c <=? 13))%N || ((28 <=? c) && (c <=? 32))%N
  || (c =? 133)%N || (c =? 160)%N || (c =? 5760)%N
  || ((8192 <=? c) && (c <=? 8202))%N
  || (c =? 8232)%N || (c =? 8233)%N || (c =? 8239)%N
  || (c =? 8287)%N || (c =? 12288)%N.

Fixpoint lstrip (s : str) : str :=
  match s with
  | [] => []
  | c :: t => if isspace c then lstrip t else s
  end.

Definition rstrip (s : str) : str := rev (lstrip (rev s)).

(** [s.strip()] *)
Definition strip (s : str) : str := rstrip (lstrip s).

(** [s.startswith(p)] *)
Fixpoint startswith (p s : str) : bool :=
  match p, s with
  | [], _ => true
  | _ :: _, [] => false
  | a :: p', b :: s' => (a =? b)%N && startswith p' s'
  end.

(** [sub in s] *)
Fixpoint contains (sub s : str) : bool :=
  startswith sub s ||
  match s with
  | [] => false
  | _ :: t => contains sub t
  end.

Fixpoint find_from (sub s : str) (i : Z) : Z :=
  match s with
  | [] => if startswith sub [] then i else (-1)%Z
  | _ :: t => if startswith sub s then i else find_from sub t (i + 1)%Z
  end.

(** [s.find(sub)]: the lowest index of [sub] in [s], or -1. *)
Definition find (s sub : str) : Z := find_from sub s 0%Z.

Definition len (s : str) : Z := Z.of_nat (List.length s).

(** [s[i:]], with Python's treatment of negative and oversized indices. *)
Definition slice_from (s : str) (i : Z) : str :=
  let i' := if (i <? 0)%Z then Z.max 0 (len s + i) else i in
  skipn (Z.to_nat i') s.

(** Replacement scans left to right and never revisits replaced text; the
    recursion is on a bound for the characters still to scan. *)
Fixpoint replace_scan (fuel : nat) (old new s : str) : str :=
  match fuel with
  | O => s
  | S f =>
      if startswith old s then new ++ replace_scan f old new (skipn (List.length old) s)
      else match s with
           | [] => []
           | c :: t => c :: replace_scan f old new t
           end
  end.

(** With an empty pattern Python inserts [new] around every character. *)
Fixpoint replace_empty (new s : str) : str :=
  match s with
  | [] => new
  | c :: t => new ++ c :: replace_empty new t
  end.

(** [s.replace(old, new)] *)
Definition replace (s old new : str) : str :=
  match old with
  | [] => replace_empty new s
  | _ :: _ => replace_scan (List.length s) old new s
  end.

End PyStr.
Import PyStr.

(** ** Response extraction ([CorrectionService.extract_model_response]) *)

Definition model_marker : str := NL ++ lit "model" ++ NL.
Definition alt_marker : str := lit "model" ++ NL.
Definition end_of_turn : str := lit "<end_of_turn>".

Definition extract_model_response (generated_text : str) : str :=
  if contains model_marker generated_text then
    let response_start := (find generated_text model_marker + len model_marker)%Z in
    let response := strip (slice_from generated_text response_start) in
    let response := strip (replace response end_of_turn []) in
    response
  else if contains alt_marker generated_text then
    let response_start := (find generated_text alt_marker + len alt_marker)%Z in
    let response := strip (slice_from generated_text response_start) in
    let response := strip (replace response end_of_turn []) in
    response
  else strip generated_text.

(** ** Exceptions and effects *)

(** The exception classes the sources raise or catch.  Every one of them is
    an [Exception]; only [RuntimeError] is a [RuntimeError].
    [HTTPException] carries the status code and the [error] entry of its
    detail; [ValidationError] is the framework's rejection of a request
    before its handler runs. *)
Inductive exn : Type :=
| RuntimeError (msg : string)
| ValueError (msg : string)
| OSError (msg : string)
| ValidationError (msg : string)
| HTTPException (status_code : Z) (error : string)
| Exception (msg : string).

Definition isinstance_RuntimeError (e : exn) : bool :=
  match e with
  | RuntimeError _ => true
  | _ => false
  end.

Definition isinstance_Exception (e : exn) : bool := true.

Inductive result (A : Type) : Type :=
| Ok (a : A)
| Raise (e : exn).
Arguments Ok {A} a.
Arguments Raise {A} e.

(** [x is None], by the static type of [x]: a [bool] attribute is never
    [None], an [Optional] one may be. *)
Class PyObject (A : Type) := is_None : A -> bool.
#[export] Instance bool_PyObject : PyObject bool := fun _ => false.
#[export] Instance option_PyObject (A : Type) : PyObject (option A) :=
  fun o => match o with None => true | Some _ => false end.

Inductive Device : Type := mps | cuda | cpu.

Record Tokenizer : Type := mkTokenizer {
  pad_token_id : option Z;
  eos_token_id : option Z
}.

Record Pipeline : Type := mkPipeline { pipe_device : Device }.

(** Keyword arguments of a pipeline call. *)
Record GenerationArgs : Type := mkArgs {
  max_new_tokens : nat;
  do_sample : bool;
  arg_pad_token_id : option Z;
  arg_eos_token_id : option Z;
  return_full_text : bool
}.

(** The model runtime, outside the repository: what loading and running a
    pipeline answer.  [run_pipeline] is [outputs[0]["generated_text"]] of one
    call. *)
Record Backend : Type := mkBackend {
  preferred_device : Device;
  load_tokenizer : result Tokenizer;
  load_pipeline : Device -> result unit;
  run_pipeline : Device -> str -> GenerationArgs -> result str
}.

Record CorrectionServiceState : Type := mkService {
  tokenizer : option Tokenizer;
  pipe : option Pipeline;
  model_loaded : bool
}.

(** One row of the [corrections] table; also the fields of [CorrectionInDB]. *)
Record CorrectionInDB : Type := mkRow {
  id : Z;
  original_text : str;
  corrected_text : str;
  created_at : Z
}.

Record CorrectionCreate : Type := mkCreate {
  create_original_text : str;
  create_corrected_text : str
}.

(** The hosted table: its rows in insertion order, the next identifier it
    assigns, and the error every request raises while it is unreachable. *)
Record Store : Type := mkStore {
  rows : list CorrectionInDB;
  next_id : Z;
  fault : option exn
}.

(** Calls into the model runtime, in the order they happen. *)
Inductive Event : Type :=
| EvGenerate (d : Device) (prompt : str) (args : GenerationArgs)
| EvLoadPipeline (d : Device).

Record World : Type := mkWorld {
  service : CorrectionServiceState;
  store : Store;
  clock : Z;
  trace : list Event
}.

(** State survives an exception, as in Python. *)
Definition M (A : Type) : Type := World -> result A * World.

Definition ret {A : Type} (a : A) : M A := fun w => (Ok a, w).

Definition raise {A : Type} (e : exn) : M A := fun w => (Raise e, w).

Definition bind {A B : Type} (m : M A) (k : A -> M B) : M B :=
  fun w =>
    match m w with
    | (Ok a, w') => k a w'
    | (Raise e, w') => (Raise e, w')
    end.

(** [try: m  except C as e: h e], [catches] deciding [isinstance(e, C)]. *)
Definition try_except {A : Type} (m : M A) (catches : exn -> bool) (h : exn -> M A) : M A :=
  fun w =>
    match m w with
    | (Ok a, w') => (Ok a, w')
    | (Raise e, w') => if catches e then h e w' else (Raise e, w')
    end.

Declare Scope py_scope.
Delimit Scope py_scope with py.
Notation "x <- m ;; k" := (bind m (fun x => k))
  (at level 61, m at next level, right associativity) : py_scope.
Notation "m ;;; k" := (bind m (fun _ => k))
  (at level 61, right associativity) : py_scope.
Open Scope py_scope.

Definition lift {A : Type} (r : result A) : M A := fun w => (r, w).

Definition get_service : M CorrectionServiceState := fun w => (Ok (service w), w).

Definition set_service (s : CorrectionServiceState) : M unit :=
  fun w => (Ok tt, mkWorld s (store w) (clock w) (trace w)).

Definition get_store : M Store := fun w => (Ok (store w), w).

Definition set_store (s : Store) : M unit :=
  fun w => (Ok tt, mkWorld (service w) s (clock w) (trace w)).

Definition log (ev : Event) : M unit :=
  fun w => (Ok tt, mkWorld (service w) (store w) (clock w) (trace w ++ [ev])).

(** [datetime.now()] on a logical clock. *)
Definition now : M Z :=
  fun w => (Ok (clock w), mkWorld (service w) (store w) (clock w + 1)%Z (trace w)).

(** ** The inference service ([app/services/correction_service.py]) *)

Module CorrectionService.

(** [CorrectionService.__init__] *)
Definition init : CorrectionServiceState := mkService None None false.

(** The chat template assigned to the tokenizer at initialization. *)
Definition apply_chat_template (messages : list (str * str)) (add_generation_prompt : bool) : str :=
  flat_map (fun m => lit "<start_of_turn>" ++ fst m ++ NL ++ snd m ++ lit "<end_of_turn>" ++ NL) messages
  ++ (if add_generation_prompt then lit "<start_of_turn>model" ++ NL else []).

Definition primary_args (tok : Tokenizer) : GenerationArgs :=
  mkArgs 64 false (pad_token_id tok) (eos_token_id tok) true.

Definition fallback_args : GenerationArgs := mkArgs 100 false None None true.

Section WithBackend.
Variable be : Backend.

(** [pipeline(...)] for a device. *)
Definition pipeline (d : Device) : M Pipeline :=
  log (EvLoadPipeline d) ;;;
  lift (load_pipeline be d) ;;;
  ret (mkPipeline d).

(** A call [p(prompt, ...)] followed by [outputs[0]["generated_text"]]. *)
Definition call_pipeline (p : Pipeline) (prompt : str) (args : GenerationArgs) : M str :=
  log (EvGenerate (pipe_device p) prompt args) ;;;
  lift (run_pipeline be (pipe_device p) prompt args).

Definition with_pad_token (tok : Tokenizer) : Tokenizer :=
  match pad_token_id tok with
  | None => mkTokenizer (eos_token_id tok) (eos_token_id tok)
  | Some _ => tok
  end.

Definition initialize_model : M unit :=
  try_except
    (tok <- lift (load_tokenizer be) ;;
     svc <- get_service ;;
     set_service (mkService (Some tok) (pipe svc) (model_loaded svc)) ;;;
     let device := preferred_device be in
     let tok' := with_pad_token tok in
     svc <- get_service ;;
     set_service (mkService (Some tok') (pipe svc) (model_loaded svc)) ;;;
     p <- pipeline device ;;
     svc <- get_service ;;
     set_service (mkService (tokenizer svc) (Some p) (model_loaded svc)) ;;;
     svc <- get_service ;;
     set_service (mkService (tokenizer svc) (pipe svc) true))
    isinstance_Exception
    (fun e => raise e).

(** The primary attempt: [Some r] when the function returns [r] from inside
    the inner [try], [None] when control falls through to the fallback. *)
Definition primary_attempt (p : Pipeline) (tok : Tokenizer) (prompt text : str) : M (option str) :=
  try_except
    (full_text <- call_pipeline p prompt (primary_args tok) ;;
     let result := extract_model_response full_text in
     if negb (PyStr.eqb (strip result) []) && negb (PyStr.eqb (strip result) (strip text))
     then ret (Some (strip result))
     else ret None)
    isinstance_RuntimeError
    (fun gpu_error => ret None).

Definition correct_arabic_text (text : str) : M str :=
  svc <- get_service ;;
  match model_loaded svc, pipe svc, tokenizer svc with
  | true, Some p, Some tok =>
      try_except
        (let messages := [(lit "user", text)] in
         let prompt := apply_chat_template messages true in
         r <- primary_attempt p tok prompt text ;;
         match r with
         | Some corrected => ret corrected
         | None =>
             cpu_pipe <- pipeline cpu ;;
             full_text <- call_pipeline cpu_pipe prompt fallback_args ;;
             let result := extract_model_response full_text in
             ret (if negb (PyStr.eqb (strip result) []) then strip result else text)
         end)
        isinstance_RuntimeError
        (fun e => ret text)
  | _, _, _ => raise (ValueError "Model not loaded")
  end.

End WithBackend.
End CorrectionService.

(** ** The request schema ([app/models/schema.py]) *)

Record TextCorrectionRequest : Type := mkRequest { text : str }.

Record TextCorrectionResponse : Type := mkResponse {
  resp_id : option Z;
  resp_original_text : str;
  resp_corrected_text : str;
  resp_timestamp : Z
}.

Record HealthResponse : Type := mkHealth {
  health_status : string;
  health_timestamp : Z;
  health_model_loaded : bool
}.

(** The [field_validator] of [text], run on a value that passed the field's
    length constraints. *)
Definition validate_text (v : str) : result str :=
  if PyStr.eqb v [] || PyStr.eqb (strip v) [] then Raise (ValueError "Text cannot be empty")
  else Ok (strip v).

(** Construction of a [TextCorrectionRequest] from the submitted text:
    [min_length=1] and [max_length=5000] first, the validator after. *)
Definition parse_TextCorrectionRequest (raw : str) : result TextCorrectionRequest :=
  if (List.length raw <? 1)%nat then Raise (ValidationError "String should have at least 1 character")
  else if (5000 <? List.length raw)%nat then Raise (ValidationError "String should have at most 5000 characters")
  else match validate_text raw with
       | Ok v => Ok (mkRequest v)
       | Raise _ => Raise (ValidationError "Value error, Text cannot be empty")
       end.

(** ** The hosted table store

    The client of [app/database.py] is outside the repository.  A request
    built on the table runs at [execute]: it raises the store's fault when
    there is one, and otherwise answers with the rows it concerns. *)

Module Supabase.

Definition execute {A : Type} (request : Store -> A * Store) : M A :=
  st <- get_store ;;
  match fault st with
  | Some e => raise e
  | None => set_store (snd (request st)) ;;; ret (fst (request st))
  end.

(** [.insert({...})]: the store assigns the identifier and answers with the
    inserted row. *)
Definition insert (original corrected : str) (created : Z) (st : Store)
  : list CorrectionInDB * Store :=
  let r := mkRow (next_id st) original corrected created in
  ([r], mkStore (rows st ++ [r]) (next_id st + 1)%Z (fault st)).

(** The columns the sources order by or could order by, and their values. *)
Inductive Column : Type := col_id | col_created_at.

Definition column_value (c : Column) (r : CorrectionInDB) : Z :=
  match c with
  | col_id => id r
  | col_created_at => created_at r
  end.

(** [in_order c desc a b]: [a] may stand before [b] under [.order(c, desc=desc)]. *)
Definition in_order (c : Column) (desc : bool) (a b : CorrectionInDB) : bool :=
  if desc then (column_value c b <=? column_value c a)%Z
  else (column_value c a <=? column_value c b)%Z.

Definition stands_before (c : Column) (desc : bool) (a b : CorrectionInDB) : Prop :=
  in_order c desc a b = true.

Fixpoint insert_ordered (c : Column) (desc : bool) (r : CorrectionInDB)
         (l : list CorrectionInDB) : list CorrectionInDB :=
  match l with
  | [] => [r]
  | x :: t => if in_order c desc r x then r :: l else x :: insert_ordered c desc r t
  end.

(** [.order(c, desc=desc)] on the rows selected. *)
Definition order (c : Column) (desc : bool) (l : list CorrectionInDB) : list CorrectionInDB :=
  fold_right (insert_ordered c desc) [] l.

(** [.select("*").order(c, desc=desc)] *)
Definition select_all_ordered (c : Column) (desc : bool) (st : Store)
  : list CorrectionInDB * Store :=
  (order c desc (rows st), st).

(** [.select("*").eq("id", i)] *)
Definition select_eq_id (i : Z) (st : Store) : list CorrectionInDB * Store :=
  (filter (fun r => (id r =? i)%Z) (rows st), st).

(** [.delete().eq("id", i)]: answers with the rows it deleted. *)
Definition delete_eq_id (i : Z) (st : Store) : list CorrectionInDB * Store :=
  (filter (fun r => (id r =? i)%Z) (rows st),
   mkStore (filter (fun r => negb (id r =? i)%Z) (rows st)) (next_id st) (fault st)).

End Supabase.

(** ** The persistence service ([app/services/database_service.py]) *)

Module DatabaseService.

Definition create_correction (correction : CorrectionCreate) : M CorrectionInDB :=
  try_except
    (created <- now ;;
     data <- Supabase.execute
               (Supabase.insert (create_original_text correction)
                                (create_corrected_text correction) created) ;;
     match data with
     | r :: _ => ret r
     | [] => raise (Exception "Error creating correction")
     end)
    isinstance_Exception
    (fun e => raise e).

Definition get_all_corrections : M (list CorrectionInDB) :=
  try_except
    (Supabase.execute (Supabase.select_all_ordered Supabase.col_created_at true))
    isinstance_Exception
    (fun e => raise e).

Definition get_correction_by_id (i : Z) : M (option CorrectionInDB) :=
  try_except
    (data <- Supabase.execute (Supabase.select_eq_id i) ;;
     ret (hd_error data))
    isinstance_Exception
    (fun e => ret None).

Definition delete_correction (i : Z) : M bool :=
  try_except
    (data <- Supabase.execute (Supabase.delete_eq_id i) ;;
     ret (0 <? List.length data)%nat)
    isinstance_Exception
    (fun e => ret false).

End DatabaseService.

(** ** The JSON routes ([app/api/routes.py]) *)

(** What the framework answers for the outcome of a handler whose success
    status is [success]: the status of a raised [HTTPException], 422 for a
    rejected request, 500 for any other exception. *)
Definition http_status {A : Type} (success : Z) (r : result A) : Z :=
  match r with
  | Ok _ => success
  | Raise (HTTPException s _) => s
  | Raise (ValidationError _) => 422%Z
  | Raise _ => 500%Z
  end.

Module ApiRoutes.

Definition health_check : M HealthResponse :=
  svc <- get_service ;;
  t <- now ;;
  ret (mkHealth "healthy" t (negb (is_None (model_loaded svc)))).

Definition get_all_text : M (list CorrectionInDB) :=
  DatabaseService.get_all_corrections.

Section WithBackend.
Variable be : Backend.

Definition correct_text (request : TextCorrectionRequest) : M TextCorrectionResponse :=
  try_except
    (svc <- get_service ;;
     if is_None (pipe svc) || is_None (tokenizer svc)
     then raise (HTTPException 503 "Model not loaded")
     else
       let input_text := text request in
       corrected <- CorrectionService.correct_arabic_text be input_text ;;
       correction_in_db <- DatabaseService.create_correction (mkCreate input_text corrected) ;;
       ret (mkResponse (Some (id correction_in_db)) input_text corrected
                       (created_at correction_in_db)))
    isinstance_Exception
    (fun e => raise (HTTPException 500 "Internal server error")).

(** [POST /gec/correct]: the body is parsed into the request model before
    the handler runs. *)
Definition post_gec_correct (raw : str) : M TextCorrectionResponse :=
  match parse_TextCorrectionRequest raw with
  | Ok request => correct_text request
  | Raise e => raise e
  end.

End WithBackend.

Definition delete_correction (text_id : Z) : M unit :=
  try_except
    (success <- DatabaseService.delete_correction text_id ;;
     if negb success
     then raise (HTTPException 404 "Correction not found")
     else ret tt)
    isinstance_Exception
    (fun e => raise (HTTPException 500 "Internal server error")).

(** [DELETE /gec/delete/{text_id}]: [Path(gt=0)] is checked before the
    handler runs. *)
Definition delete_gec_delete (text_id : Z) : M unit :=
  if (0 <? text_id)%Z then delete_correction text_id
  else raise (ValidationError "Input should be greater than 0").

End ApiRoutes.

(** ** The HTML routes ([app/web/routes.py]) *)

Module WebRoutes.

Inductive Page : Type :=
| IndexPage (error : option string)
| CorrectionPage (original corrected : str) (correction_id : Z).

Section WithBackend.
Variable be : Backend.

(** [POST /correct]: [text] is the form field as submitted. *)
Definition correct_text_web (text : str) : M Page :=
  try_except
    (svc <- get_service ;;
     if negb (model_loaded svc)
     then ret (IndexPage (Some "Model not loaded"%string))
     else
       corrected <- CorrectionService.correct_arabic_text be text ;;
       correction_in_db <- DatabaseService.create_correction (mkCreate text corrected) ;;
       ret (CorrectionPage text corrected (id correction_in_db)))
    isinstance_Exception
    (fun e => ret (IndexPage (Some "An error occurred while correcting text"%string))).

End WithBackend.
(** [RedirectResponse(url=..., status_code=...)] *)
Record RedirectResponse : Type := mkRedirect {
  redirect_url : string;
  redirect_status : Z
}.

(** [GET /]: the index page without a message. *)
Definition home : M Page := ret (IndexPage None).

(** [GET /history]: the corrections handed to the history template. *)
Definition correction_history : M (list CorrectionInDB) :=
  corrections <- DatabaseService.get_all_corrections ;;
  ret corrections.

(** [POST /delete/{correction_id}]: the id is any integer here. *)
Definition delete_correction_web (correction_id : Z) : M RedirectResponse :=
  try_except
    (success <- DatabaseService.delete_correction correction_id ;;
     if negb success then ret tt else ret tt)
    isinstance_Exception
    (fun e => ret tt) ;;;
  ret (mkRedirect "/history" 303).

End WebRoutes.

(** ** Application startup ([app/main.py]) *)

Definition lifespan_startup (be : Backend) : M unit :=
  try_except (CorrectionService.initialize_model be) isinstance_Exception (fun e => ret tt).

(** The process before startup: the service as constructed, an empty table. *)
Definition initial_world : World :=
  mkWorld CorrectionService.init (mkStore [] 1 None) 0 [].

(** ** Response extraction as the specification words it *)

(** The substring of [s] after the first occurrence of [m], when [m]
    occurs in [s]. *)
Fixpoint after_first (m s : str) : option str :=
  match s with
  | [] => if startswith m [] then Some (skipn (List.length m) []) else None
  | _ :: t => if startswith m s then Some (skipn (List.length m) s) else after_first m t
  end.

(** The role markers that open the model's turn. *)
Definition role_markers : list str := [model_marker; alt_marker].

(** The marker that starts at the head of [s], if any (no two of the role
    markers start with the same character, so at most one does). *)
Definition marker_at (markers : list str) (s : str) : option str :=
  List.find (fun m => startswith m s) markers.

(** What follows the first occurrence of a role marker in [s]: the text is
    read from the left, and the cut is after the marker found at the first
    position where one of them starts. *)
Fixpoint after_role_marker (markers : list str) (s : str) : option str :=
  match s with
  | [] =>
      match marker_at markers [] with
      | Some m => Some (skipn (List.length m) [])
      | None => None
      end
  | _ :: t =>
      match marker_at markers s with
      | Some m => Some (skipn (List.length m) s)
      | None => after_role_marker markers t
      end
  end.

Definition remove_all (m s : str) : str := replace s m [].

Definition spec_extract_response (s : str) : str :=
  match after_role_marker role_markers s with
  | Some tail => strip (remove_all end_of_turn tail)
  | None => strip s
  end.

(** A generated text whose completion has a line reading [model]: the
    prompt for [hi] followed by [The], [model] and [is good] on three
    lines. *)
Definition completion_with_model_line : str :=
  lit "The" ++ NL ++ lit "model" ++ NL ++ lit "is good".

Definition generated_with_model_line : str :=
  CorrectionService.apply_chat_template [(lit "user", lit "hi")] true
  ++ completion_with_model_line.

(** ** Sample worlds *)

Definition sample_tokenizer : Tokenizer := mkTokenizer (Some 0%Z) (Some 1%Z).

Definition loaded_service : CorrectionServiceState :=
  mkService (Some sample_tokenizer) (Some (mkPipeline cuda)) true.

Definition loaded_world : World :=
  mkWorld loaded_service (mkStore [] 1 None) 0 [].

(** A runtime that answers every prompt with the prompt followed by a fixed
    completion. *)
Definition completing_backend (completion : str) : Backend :=
  mkBackend cuda (Ok sample_tokenizer) (fun _ => Ok tt)
            (fun _ prompt _ => Ok (prompt ++ completion)).

(** ** Vocabulary of the statements *)

(** [Settings.max_text_length] of [app/config.py]. *)
Definition max_text_length : nat := 5000.

(** The single-turn prompt built from the input text. *)
Definition prompt_of (text : str) : str :=
  CorrectionService.apply_chat_template [(lit "user", text)] true.

(** The result the code extracts from a full generated text: [result.strip()]. *)
Definition extracted (full_text : str) : str := strip (extract_model_response full_text).

Definition with_event (w : World) (ev : Event) : World :=
  mkWorld (service w) (store w) (clock w) (trace w ++ [ev]).

(** The model is loaded: the flag is set and both objects exist. *)
Definition loaded (w : World) : Prop :=
  model_loaded (service w) = true
  /\ pipe (service w) <> None /\ tokenizer (service w) <> None.

(** A runtime whose failures are all runtime failures. *)
Definition runtime_failures_only (be : Backend) : Prop :=
  (forall d e, load_pipeline be d = Raise e -> isinstance_RuntimeError e = true)
  /\ (forall d prompt args e,
        run_pipeline be d prompt args = Raise e -> isinstance_RuntimeError e = true).

(** Two-tier generation as a decision table over the answers of the
    runtime: the fallback tier first, the whole after. *)
Definition fallback_tier (be : Backend) (text prompt : str) (w : World) : result str * World :=
  let w2 := with_event w (EvLoadPipeline cpu) in
  match load_pipeline be cpu with
  | Raise e => if isinstance_RuntimeError e then (Ok text, w2) else (Raise e, w2)
  | Ok _ =>
      let w3 := with_event w2 (EvGenerate cpu prompt CorrectionService.fallback_args) in
      match run_pipeline be cpu prompt CorrectionService.fallback_args with
      | Raise e => if isinstance_RuntimeError e then (Ok text, w3) else (Raise e, w3)
      | Ok full =>
          (Ok (if PyStr.eqb (extracted full) [] then text else extracted full), w3)
      end
  end.

Definition two_tiers (be : Backend) (tok : Tokenizer) (p : Pipeline) (text : str) (w : World)
  : result str * World :=
  let prompt := prompt_of text in
  let args := CorrectionService.primary_args tok in
  let w1 := with_event w (EvGenerate (pipe_device p) prompt args) in
  match run_pipeline be (pipe_device p) prompt args with
  | Ok full =>
      if PyStr.eqb (extracted full) [] then fallback_tier be text prompt w1
      else if PyStr.eqb (extracted full) (strip text) then fallback_tier be text prompt w1
      else (Ok (extracted full), w1)
  | Raise e =>
      if isinstance_RuntimeError e then fallback_tier be text prompt w1 else (Raise e, w1)
  end.

(** A machine whose accelerator fails at generation and whose model files
    cannot be read again for the CPU pipeline. *)
Definition offline_backend : Backend :=
  mkBackend cuda (Ok sample_tokenizer)
            (fun _ => Raise (OSError "cannot load model files"))
            (fun _ _ _ => Raise (RuntimeError "CUDA error")).

(** A machine whose accelerator echoes the prompt and whose CPU pipeline
    rejects the call with an exception that is not a runtime failure. *)
Definition rejecting_cpu_backend : Backend :=
  mkBackend cuda (Ok sample_tokenizer) (fun _ => Ok tt)
            (fun d prompt _ =>
               match d with
               | cpu => Raise (ValueError "unexpected keyword argument")
               | _ => Ok prompt
               end).

(** A store holding three corrections, not in creation order. *)
Definition sample_rows : list CorrectionInDB :=
  [mkRow 1 (lit "a") (lit "A") 20; mkRow 2 (lit "b") (lit "B") 30; mkRow 3 (lit "c") (lit "C") 10].

Definition sample_store_world : World :=
  mkWorld loaded_service (mkStore sample_rows 4 None) 40 [].

(** The same with the store unreachable. *)
Definition faulty_store_world : World :=
  mkWorld loaded_service (mkStore sample_rows 4 (Some (OSError "connection refused"))) 40 [].

(** [l[i]] and [l[i+1]] are adjacent in [l]. *)
Definition adjacent {A : Type} (l : list A) (a b : A) : Prop :=
  exists i : nat, nth_error l i = Some a /\ nth_error l (S i) = Some b.

(** ** The standalone script ([extract_model_response.py], [main.py])

    The script keeps its corrections in the list [OUTPUTS], mirrored in the
    file [outputs.json], and calls the module-level [correct_arabic_text] of
    [extract_model_response.py], whose tokenizer and pipeline exist from
    import on. *)

Module Script.

(** [correct_arabic_text] of [extract_model_response.py]: the body of the
    service's method without the guard, on the module's own objects. *)
Definition correct_arabic_text (be : Backend) (tok : Tokenizer) (p : Pipeline)
           (text : str) : M str :=
  try_except
    (let messages := [(lit "user", text)] in
     let prompt := CorrectionService.apply_chat_template messages true in
     r <- CorrectionService.primary_attempt be p tok prompt text ;;
     match r with
     | Some corrected => ret corrected
     | None =>
         cpu_pipe <- CorrectionService.pipeline be cpu ;;
         full_text <- CorrectionService.call_pipeline be cpu_pipe prompt
                        CorrectionService.fallback_args ;;
         let result := extract_model_response full_text in
         ret (if negb (PyStr.eqb (strip result) []) then strip result else text)
     end)
    isinstance_RuntimeError
    (fun e => ret text).

(** One dictionary of [OUTPUTS]: the keys [id], [input text], [corrected text]. *)
Record Output : Type := mkOutput {
  out_id : Z;
  out_input_text : str;
  out_corrected_text : str
}.

(** Equality of two such dictionaries, as [list.remove] tests it. *)
Definition Output_eqb (a b : Output) : bool :=
  (out_id a =? out_id b)%Z
  && PyStr.eqb (out_input_text a) (out_input_text b)
  && PyStr.eqb (out_corrected_text a) (out_corrected_text b).

(** The globals of [main.py], the file on disk and the clock. *)
Record App : Type := mkApp {
  app_pipe : option Pipeline;
  app_tokenizer : option Tokenizer;
  OUTPUTS : list Output;
  outputs_json : list Output;
  app_clock : Z
}.

Record ScriptResponse : Type := mkScriptResponse {
  script_original_text : str;
  script_corrected_text : str;
  script_timestamp : Z
}.

Definition set_OUTPUTS (l : list Output) (st : App) : App :=
  mkApp (app_pipe st) (app_tokenizer st) l (outputs_json st) (app_clock st).

(** [update_json_file]: the file receives the list as it is. *)
Definition update_json_file (st : App) : App :=
  mkApp (app_pipe st) (app_tokenizer st) (OUTPUTS st) (OUTPUTS st) (app_clock st).

(** [l.remove(x)]: the first element equal to [x] goes. *)
Fixpoint remove_first (x : Output) (l : list Output) : list Output :=
  match l with
  | [] => []
  | y :: t => if Output_eqb y x then t else y :: remove_first x t
  end.

(** The [for output in OUTPUTS] loop of [delete_book]: the list iterator
    reads position [index] of the list as it is at that moment and stops
    when the position is past the end.  [fuel] bounds the positions left. *)
Fixpoint delete_loop (fuel : nat) (text_id : Z) (index : nat) (st : App) : App :=
  match fuel with
  | O => st
  | S f =>
      match nth_error (OUTPUTS st) index with
      | None => st
      | Some output =>
          if (out_id output =? text_id)%Z
          then delete_loop f text_id (S index)
                 (update_json_file (set_OUTPUTS (remove_first output (OUTPUTS st)) st))
          else delete_loop f text_id (S index) st
      end
  end.

(** [delete_book], the handler of [DELETE /gec/delete/{text_id}]. *)
Definition delete_book (text_id : Z) (st : App) : result unit * App :=
  if (text_id <=? 0)%Z then (Raise (HTTPException 400 "Invalid ID number"), st)
  else (Ok tt, delete_loop (List.length (OUTPUTS st)) text_id 0 st).

(** [OUTPUTS[-1]["id"]]; an empty list raises [IndexError], an [Exception]. *)
Definition last_id (l : list Output) : result Z :=
  match rev l with
  | [] => Raise (Exception "IndexError: list index out of range")
  | o :: _ => Ok (out_id o)
  end.

Section WithBackend.
Variable be : Backend.
Variable module_tokenizer : Tokenizer.
Variable module_pipe : Pipeline.

(** The outcome of the imported [correct_arabic_text]; its calls into the
    runtime are not recorded here. *)
Definition infer (text : str) : result str :=
  fst (correct_arabic_text be module_tokenizer module_pipe text
         (mkWorld (mkService None None false) (mkStore [] 1 None) 0 [])).

(** The [try] block of [correct_text]. *)
Definition correct_text_body (request : TextCorrectionRequest) (st : App)
  : result ScriptResponse * App :=
  if is_None (app_pipe st) || is_None (app_tokenizer st)
  then (Raise (HTTPException 503 "Model not loaded"), st)
  else
    let input_text := text request in
    match infer input_text with
    | Raise e => (Raise e, st)
    | Ok corrected =>
        let st1 := mkApp (app_pipe st) (app_tokenizer st) (OUTPUTS st) (outputs_json st)
                         (app_clock st + 1)%Z in
        let response := mkScriptResponse input_text corrected (app_clock st) in
        match last_id (OUTPUTS st1) with
        | Raise e => (Raise e, st1)
        | Ok last =>
            let output := mkOutput (last + 1)%Z input_text corrected in
            (Ok response, update_json_file (set_OUTPUTS (OUTPUTS st1 ++ [output]) st1))
        end
    end.

(** [correct_text], the handler of [POST /gec/correct] in the script. *)
Definition correct_text (request : TextCorrectionRequest) (st : App)
  : result ScriptResponse * App :=
  match correct_text_body request st with
  | (Ok r, st') => (Ok r, st')
  | (Raise e, st') =>
      if isinstance_Exception e
      then (Raise (HTTPException 500 "Internal server error"), st')
      else (Raise e, st')
  end.

End WithBackend.

(** [get_all_text] of the script. *)
Definition get_all_text (st : App) : list Output := OUTPUTS st.

End Script.

(** ** Invariants of the stores *)

(** Identifiers in the table are pairwise distinct and below the next one
    the store will assign. *)
Definition store_ok (st : Store) : Prop :=
  NoDup (map id (rows st)) /\ Forall (fun r => (id r < next_id st)%Z) (rows st).

(** The identifiers of [OUTPUTS] increase strictly along the list. *)
Definition ids_increasing (l : list Script.Output) : Prop :=
  StronglySorted (fun a b => (Script.out_id a < Script.out_id b)%Z) l.

(** The service never claims to be loaded without its two objects. *)
Definition service_consistent (s : CorrectionServiceState) : Prop :=
  model_loaded s = true -> pipe s <> None /\ tokenizer s <> None.

(** [c] is no character of the pattern [m]. *)
Definition foreign (m : str) (c : char) : Prop :=
  forallb (fun x => negb (x =? c)%N) m = true.

(** A string without whitespace at either end. *)
Definition stripped (s : str) : Prop := lstrip s = s /\ rstrip s = s.

(** * Theorems *)

(** ** Strings: stripping and replacement *)

Section StringFacts.

Lemma eqb_eq (a b : str) : PyStr.eqb a b = true <-> a = b.
Proof.
  unfold PyStr.eqb. destruct (list_eq_dec N.eq_dec a b); split; congruence.
Qed.

Lemma eqb_neq (a b : str) : PyStr.eqb a b = false <-> a <> b.
Proof.
  unfold PyStr.eqb. destruct (list_eq_dec N.eq_dec a b); split; congruence.
Qed.

Lemma lstrip_split (s : str) :
  exists ws, s = ws ++ lstrip s /\ forallb isspace ws = true.
Proof.
  induction s as [|c t [ws [Heq Hws]]]; simpl.
  - exists []. auto.
  - destruct (isspace c) eqn:Hc.
    + exists (c :: ws). simpl. rewrite Hc, Hws. split; [now f_equal | reflexivity].
    + exists []. auto.
Qed.

Lemma forallb_rev (A : Type) (f : A -> bool) (l : list A) :
  forallb f (rev l) = forallb f l.
Proof.
  induction l as [|a l IH]; simpl; trivial.
  rewrite forallb_app, IH. simpl. rewrite andb_true_r. apply andb_comm.
Qed.

Lemma rstrip_split (s : str) :
  exists ws, s = rstrip s ++ ws /\ forallb isspace ws = true.
Proof.
  unfold rstrip. destruct (lstrip_split (rev s)) as [ws [Heq Hws]].
  exists (rev ws). rewrite forallb_rev. split; trivial.
  rewrite <- rev_app_distr, <- Heq. symmetry. apply rev_involutive.
Qed.

Lemma strip_split (s : str) :
  exists ws1 ws2, s = ws1 ++ strip s ++ ws2
                  /\ forallb isspace ws1 = true /\ forallb isspace ws2 = true.
Proof.
  destruct (lstrip_split s) as [ws1 [H1 Hw1]].
  destruct (rstrip_split (lstrip s)) as [ws2 [H2 Hw2]].
  exists ws1, ws2. unfold strip. rewrite <- H2. auto.
Qed.

Lemma lstrip_spaces (ws s : str) :
  forallb isspace ws = true -> lstrip (ws ++ s) = lstrip s.
Proof.
  induction ws as [|c ws IH]; simpl; trivial.
  intros H. apply andb_true_iff in H. destruct H as [Hc H].
  rewrite Hc. auto.
Qed.

Lemma rstrip_spaces (s ws : str) :
  forallb isspace ws = true -> rstrip (s ++ ws) = rstrip s.
Proof.
  intros H. unfold rstrip. rewrite rev_app_distr, lstrip_spaces; trivial.
  now rewrite forallb_rev.
Qed.

Lemma strip_spaces_r (s ws : str) :
  forallb isspace ws = true -> strip (s ++ ws) = strip s.
Proof.
  intros H. unfold strip. induction s as [|c t IH]; simpl.
  - replace (lstrip ws) with (lstrip (ws ++ [])) by now rewrite app_nil_r.
    now rewrite lstrip_spaces.
  - destruct (isspace c); trivial.
    change (c :: t ++ ws) with ((c :: t) ++ ws). now apply rstrip_spaces.
Qed.

Lemma strip_spaces (ws1 s ws2 : str) :
  forallb isspace ws1 = true -> forallb isspace ws2 = true ->
  strip (ws1 ++ s ++ ws2) = strip s.
Proof.
  intros H1 H2. unfold strip at 1. rewrite lstrip_spaces; trivial.
  now apply strip_spaces_r.
Qed.

Variables old new : str.
Hypothesis old_nonempty : old <> [].
Hypothesis old_nonspace : forallb (fun c => negb (isspace c)) old = true.

Lemma startswith_space (c : char) (s : str) :
  isspace c = true -> startswith old (c :: s) = false.
Proof.
  intros Hc. destruct old as [|o old']; [congruence|]. simpl in *.
  apply andb_true_iff in old_nonspace. destruct old_nonspace as [Ho _].
  destruct (N.eqb_spec o c) as [->|]; trivial.
  rewrite Hc in Ho. discriminate.
Qed.

Lemma startswith_spaces_r (y ws : str) :
  forallb isspace ws = true -> startswith old (y ++ ws) = startswith old y.
Proof.
  clear old_nonempty. revert y old_nonspace.
  induction old as [|a p IH]; intros y Hp Hws; trivial.
  simpl in Hp. apply andb_true_iff in Hp. destruct Hp as [Ha Hp].
  destruct y as [|b y]; simpl.
  - destruct ws as [|c ws]; trivial. simpl in Hws.
    apply andb_true_iff in Hws. destruct Hws as [Hc _].
    destruct (N.eqb_spec a c) as [->|]; trivial.
    rewrite Hc in Ha. discriminate.
  - now rewrite IH.
Qed.

Lemma startswith_length (p s : str) :
  startswith p s = true -> (List.length p <= List.length s)%nat.
Proof.
  revert s. induction p as [|a p IH]; intros [|b s] H; simpl in *; try lia; try discriminate.
  apply andb_true_iff in H. destruct H as [_ H]. apply IH in H. lia.
Qed.

Lemma replace_scan_spaces (n : nat) (ws : str) :
  forallb isspace ws = true -> replace_scan n old new ws = ws.
Proof.
  revert ws. induction n as [|n IH]; intros ws H; simpl; trivial.
  destruct ws as [|c ws]; simpl in H.
  - destruct old; [congruence | reflexivity].
  - apply andb_true_iff in H. destruct H as [Hc H].
    rewrite startswith_space by trivial. now rewrite IH.
Qed.

Lemma replace_scan_spaces_l (ws s : str) (n : nat) :
  forallb isspace ws = true ->
  replace_scan (List.length ws + n) old new (ws ++ s) = ws ++ replace_scan n old new s.
Proof.
  induction ws as [|c ws IH]; simpl; trivial.
  intros H. apply andb_true_iff in H. destruct H as [Hc H].
  rewrite startswith_space by trivial. now rewrite IH.
Qed.

Lemma replace_scan_spaces_r (n : nat) (y ws : str) :
  forallb isspace ws = true -> (List.length y <= n)%nat ->
  replace_scan (n + List.length ws) old new (y ++ ws) = replace_scan n old new y ++ ws.
Proof.
  intros Hws. revert y. induction n as [|n IH]; intros y Hy.
  - destruct y; [|simpl in Hy; lia]. simpl. now apply replace_scan_spaces.
  - change (S n + List.length ws)%nat with (S (n + List.length ws)).
    cbn [replace_scan]. rewrite startswith_spaces_r by trivial.
    destruct (startswith old y) eqn:Hsw.
    + pose proof (startswith_length _ _ Hsw) as Hlen.
      rewrite skipn_app.
      replace (List.length old - List.length y)%nat with 0%nat by lia.
      simpl (skipn 0 ws). rewrite IH, app_assoc; trivial.
      rewrite length_skipn. destruct old; [congruence|]. simpl in *. lia.
    + destruct y as [|c y]; simpl.
      * destruct ws as [|c ws]; trivial. simpl in Hws.
        apply andb_true_iff in Hws. destruct Hws as [Hc Hws].
        now rewrite replace_scan_spaces.
      * simpl in Hy. rewrite IH; trivial. lia.
Qed.

Lemma replace_nonempty (s : str) :
  replace s old new = replace_scan (List.length s) old new s.
Proof.
  unfold replace. destruct old; [congruence | reflexivity].
Qed.

Lemma replace_spaces (ws1 y ws2 : str) :
  forallb isspace ws1 = true -> forallb isspace ws2 = true ->
  replace (ws1 ++ y ++ ws2) old new = ws1 ++ replace y old new ++ ws2.
Proof.
  intros H1 H2. rewrite !replace_nonempty.
  rewrite !length_app, replace_scan_spaces_l by trivial.
  now rewrite replace_scan_spaces_r.
Qed.

(** Stripping before the replacement changes nothing once the result is
    stripped again. *)
Lemma strip_replace_strip (x : str) :
  strip (replace (strip x) old new) = strip (replace x old new).
Proof.
  destruct (strip_split x) as [ws1 [ws2 [Hx [H1 H2]]]].
  rewrite Hx at 2. rewrite replace_spaces by trivial.
  now rewrite strip_spaces.
Qed.

End StringFacts.

Lemma find_from_after_first (m s : str) (i : Z) :
  contains m s = true ->
  exists k : nat,
    find_from m s i = (i + Z.of_nat k)%Z
    /\ after_first m s = Some (skipn (k + List.length m) s).
Proof.
  revert i. induction s as [|c t IH]; intros i H.
  - simpl in *. rewrite orb_false_r in H. rewrite H. exists 0%nat.
    split; [lia | reflexivity].
  - cbn [contains] in H. cbn [find_from after_first].
    destruct (startswith m (c :: t)) eqn:Hsw.
    + exists 0%nat. split; [lia | reflexivity].
    + simpl in H. destruct (IH (i + 1)%Z H) as [k [Hf Ha]].
      exists (S k). split; [lia | exact Ha].
Qed.

Lemma after_first_none (m s : str) :
  contains m s = false -> after_first m s = None.
Proof.
  induction s as [|c t IH]; cbn [contains after_first]; intros H;
    apply orb_false_iff in H; destruct H as [Hs H]; rewrite Hs; auto.
Qed.

(** The slice the source takes is the text after the first occurrence. *)
Lemma slice_after_find (m s : str) :
  contains m s = true ->
  after_first m s = Some (slice_from s (find s m + len m)).
Proof.
  intros H. destruct (find_from_after_first m s 0 H) as [k [Hf Ha]].
  unfold find, slice_from, len. rewrite Hf, Ha.
  replace (0 + Z.of_nat k + Z.of_nat (List.length m) <? 0)%Z with false
    by (symmetry; apply Z.ltb_ge; lia).
  do 2 f_equal. lia.
Qed.

Lemma end_of_turn_facts :
  end_of_turn <> [] /\ forallb (fun c => negb (isspace c)) end_of_turn = true.
Proof. split; [discriminate | reflexivity]. Qed.

(** ** Response extraction *)

Lemma extract_after_marker (m s : str) :
  contains m s = true ->
  strip (replace (strip (slice_from s (find s m + len m))) end_of_turn [])
  = match after_first m s with
    | Some tail => strip (remove_all end_of_turn tail)
    | None => strip s
    end.
Proof.
  intros H. rewrite (slice_after_find m s H). unfold remove_all.
  destruct end_of_turn_facts as [Hne Hns].
  now apply strip_replace_strip.
Qed.

Lemma extract_no_marker (s : str) :
  contains model_marker s = false -> contains alt_marker s = false ->
  extract_model_response s = strip s.
Proof.
  intros H1 H2. unfold extract_model_response. now rewrite H1, H2.
Qed.

(** Read from the left, the first role marker found is the bare one:
    a newline-delimited marker always carries a bare one at its second
    character, ending at the same place. *)
Lemma after_role_marker_is_first_bare (s : str) :
  after_role_marker role_markers s = after_first alt_marker s.
Proof.
  induction s as [|c t IH]; [reflexivity|].
  cbn [after_role_marker after_first].
  unfold marker_at, role_markers. cbn [List.find].
  change (startswith model_marker (c :: t))
    with ((10 =? c)%N && startswith alt_marker t).
  destruct (N.eqb_spec 10 c) as [<-|Hc]; cbn [andb].
  - replace (startswith alt_marker (10%N :: t)) with false by reflexivity.
    destruct (startswith alt_marker t) eqn:Ht; [|exact IH].
    destruct t as [|x u]; [discriminate Ht|].
    cbn [after_first]. rewrite Ht. reflexivity.
  - destruct (startswith alt_marker (c :: t)); [reflexivity | exact IH].
Qed.

(** Where the newline-delimited marker occurs nowhere, the code does what
    the specification says. *)
Lemma extract_agrees_without_delimited_marker (s : str) :
  contains model_marker s = false ->
  extract_model_response s = spec_extract_response s.
Proof.
  intros Hm. unfold extract_model_response, spec_extract_response.
  rewrite Hm, after_role_marker_is_first_bare.
  destruct (contains alt_marker s) eqn:Ha.
  - now rewrite (extract_after_marker _ _ Ha).
  - now rewrite (after_first_none _ _ Ha).
Qed.

(** C2 (the code departs from it): on the prompt for [hi] followed by a
    completion whose second line reads [model], the first role marker in the
    text is the one that opens the model's turn, and the specified
    extraction returns the whole completion; [extract_model_response] looks
    for the newline-delimited marker first, finds it inside the completion
    and returns only [is good].  On the transcript ending in the marker,
    HELLO and an end-of-turn marker both give HELLO. *)
Theorem extract_cuts_inside_the_completion :
  after_role_marker role_markers generated_with_model_line
  = Some completion_with_model_line
  /\ spec_extract_response generated_with_model_line = completion_with_model_line
  /\ extract_model_response generated_with_model_line = lit "is good"
  /\ extract_model_response
       (lit "..." ++ NL ++ lit "model" ++ NL ++ lit "HELLO<end_of_turn>") = lit "HELLO"
  /\ spec_extract_response
       (lit "..." ++ NL ++ lit "model" ++ NL ++ lit "HELLO<end_of_turn>") = lit "HELLO".
Proof.
  repeat split; vm_compute; reflexivity.
Qed.

(** ** Two-tier generation *)

Ltac fallback_cases be text :=
  unfold fallback_tier, with_event, CorrectionService.pipeline, bind, log, lift, ret;
  cbn -[prompt_of];
  destruct (load_pipeline be cpu) as [[]|?e]; cbn -[prompt_of];
  [ destruct (run_pipeline be cpu (prompt_of text) CorrectionService.fallback_args)
      as [?full|?e]; cbn -[prompt_of];
    [ match goal with
      | |- context [extract_model_response ?f] =>
          fold (extracted f); now destruct (PyStr.eqb (extracted f) [])
      end
    | match goal with
      | |- context [isinstance_RuntimeError ?e] => now destruct (isinstance_RuntimeError e)
      end ]
  | match goal with
    | |- context [isinstance_RuntimeError ?e] => now destruct (isinstance_RuntimeError e)
    end ].

Lemma correct_arabic_text_two_tiers (be : Backend) (tok : Tokenizer) (p : Pipeline)
      (text : str) (w : World) :
  service w = mkService (Some tok) (Some p) true ->
  CorrectionService.correct_arabic_text be text w = two_tiers be tok p text w.
Proof.
  intros Hs.
  unfold CorrectionService.correct_arabic_text, two_tiers, bind at 1, get_service.
  rewrite Hs. cbn [model_loaded pipe tokenizer].
  unfold try_except at 1, bind at 1.
  unfold CorrectionService.primary_attempt, try_except at 1, bind at 1.
  unfold CorrectionService.call_pipeline, bind at 1, log, lift.
  fold (prompt_of text).
  destruct (run_pipeline be (pipe_device p) (prompt_of text)
              (CorrectionService.primary_args tok)) as [full|e]; cbn -[prompt_of].
  - fold (extracted full).
    destruct (PyStr.eqb (extracted full) []); cbn -[prompt_of].
    + fallback_cases be text.
    + destruct (PyStr.eqb (extracted full) (strip text)); cbn -[prompt_of]; trivial.
      fallback_cases be text.
  - destruct (isinstance_RuntimeError e) eqn:He; cbn -[prompt_of].
    + fallback_cases be text.
    + now rewrite He.
Qed.

Lemma loaded_service_shape (w : World) :
  loaded w ->
  exists tok p, service w = mkService (Some tok) (Some p) true.
Proof.
  intros [Hm [Hp Ht]]. destruct (service w) as [[tok|] [p|] m]; simpl in *;
    try congruence. subst m. now exists tok, p.
Qed.

Lemma fallback_tier_runtime_only (be : Backend) (text prompt : str) (w : World) :
  runtime_failures_only be ->
  exists s, fst (fallback_tier be text prompt w) = Ok s
            /\ ((exists e, load_pipeline be cpu = Raise e
                           \/ run_pipeline be cpu prompt CorrectionService.fallback_args = Raise e)
                -> s = text).
Proof.
  intros [Hload Hrun]. unfold fallback_tier.
  destruct (load_pipeline be cpu) as [[]|e] eqn:Hl.
  - destruct (run_pipeline be cpu prompt CorrectionService.fallback_args) as [full|e] eqn:Hr.
    + eexists. split; [reflexivity|]. intros [e [H|H]]; discriminate.
    + rewrite (Hrun _ _ _ _ Hr). exists text. now split.
  - rewrite (Hload _ _ Hl). exists text. now split.
Qed.

(** What the two handlers do absorb: with the model loaded, a non-empty
    text within the configured maximum, and a runtime whose failures are all
    runtime failures, [correct_arabic_text] returns a string and raises
    nothing; when the primary attempt and the fallback both fail, the string
    is the unmodified input. *)
Theorem correct_arabic_text_absorbs_runtime_failures
        (be : Backend) (text : str) (w : World) :
  loaded w -> text <> [] -> (List.length text <= max_text_length)%nat ->
  runtime_failures_only be ->
  exists s,
    fst (CorrectionService.correct_arabic_text be text w) = Ok s
    /\ (forall tok p,
          service w = mkService (Some tok) (Some p) true ->
          (exists e, run_pipeline be (pipe_device p) (prompt_of text)
                       (CorrectionService.primary_args tok) = Raise e) ->
          (exists e, load_pipeline be cpu = Raise e
                     \/ run_pipeline be cpu (prompt_of text)
                          CorrectionService.fallback_args = Raise e) ->
          s = text).
Proof.
  intros Hl _ _ Hrt.
  destruct (loaded_service_shape w Hl) as [tok [p Hs]].
  rewrite (correct_arabic_text_two_tiers be tok p text w Hs). unfold two_tiers.
  set (w1 := with_event w _).
  destruct (fallback_tier_runtime_only be text (prompt_of text) w1 Hrt) as [s [Hfb Hin]].
  destruct (run_pipeline be (pipe_device p) (prompt_of text)
              (CorrectionService.primary_args tok)) as [full|e] eqn:Hp.
  - assert (Hno : forall s0 tok' p',
               service w = mkService (Some tok') (Some p') true ->
               (exists e, run_pipeline be (pipe_device p') (prompt_of text)
                            (CorrectionService.primary_args tok') = Raise e) ->
               (exists e, load_pipeline be cpu = Raise e
                          \/ run_pipeline be cpu (prompt_of text)
                               CorrectionService.fallback_args = Raise e) ->
               s0 = text).
    { intros s0 tok' p' Hs' [e He]. rewrite Hs in Hs'. injection Hs' as <- <-.
      congruence. }
    destruct (PyStr.eqb (extracted full) []);
      [|destruct (PyStr.eqb (extracted full) (strip text))];
      eexists; (split; [eassumption || reflexivity | apply Hno]).
  - destruct Hrt as [_ Hrun]. rewrite (Hrun _ _ _ _ Hp).
    exists s. split; [exact Hfb|]. intros tok' p' Hs' _. exact Hin.
Qed.

(** C1 (the code departs from it): the model is loaded and the text [hi] is
    non-empty and within the maximum; the accelerator raises a runtime
    failure and the CPU pipeline cannot be built, which raises an [OSError].
    Both methods have failed, and [correct_arabic_text] raises the [OSError]
    to its caller instead of returning [hi], after the primary call and the
    attempt to build the CPU pipeline. *)
Theorem final_fallback_lets_other_exceptions_through :
  loaded loaded_world
  /\ lit "hi" <> []
  /\ (List.length (lit "hi") <= max_text_length)%nat
  /\ run_pipeline offline_backend cuda (prompt_of (lit "hi"))
                  (CorrectionService.primary_args sample_tokenizer)
     = Raise (RuntimeError "CUDA error")
  /\ load_pipeline offline_backend cpu = Raise (OSError "cannot load model files")
  /\ CorrectionService.correct_arabic_text offline_backend (lit "hi") loaded_world
     = (Raise (OSError "cannot load model files"),
        with_event
          (with_event loaded_world
             (EvGenerate cuda (prompt_of (lit "hi"))
                         (CorrectionService.primary_args sample_tokenizer)))
          (EvLoadPipeline cpu)).
Proof.
  split; [unfold loaded; simpl; repeat split; discriminate|].
  split; [discriminate|].
  split; [unfold max_text_length; simpl; lia|].
  repeat split.
Qed.

Lemma offline_backend_runtime_only_fails :
  fst (CorrectionService.correct_arabic_text offline_backend (lit "hi") loaded_world)
  = Raise (OSError "cannot load model files").
Proof. reflexivity. Qed.

(** Without the restriction to runtime failures the statement fails: on a
    loaded service, with the two-character input [hi], a runtime whose
    accelerator raises a runtime failure and whose CPU pipeline cannot be
    built for another reason makes [correct_arabic_text] raise that other
    exception. *)
Lemma correct_arabic_text_can_raise :
  ~ (forall (be : Backend) (text : str) (w : World),
        loaded w -> text <> [] -> (List.length text <= max_text_length)%nat ->
        exists s, fst (CorrectionService.correct_arabic_text be text w) = Ok s).
Proof.
  intros H.
  destruct (H offline_backend (lit "hi") loaded_world) as [s Hs].
  - unfold loaded. simpl. repeat split; discriminate.
  - discriminate.
  - unfold max_text_length. simpl. lia.
  - rewrite offline_backend_runtime_only_fails in Hs. discriminate.
Qed.

(** A runtime that fails on both tiers with runtime failures only. *)
Lemma correct_arabic_text_absorbs_runtime_failures_witness :
  exists s,
    fst (CorrectionService.correct_arabic_text
           (mkBackend cuda (Ok sample_tokenizer) (fun _ => Ok tt)
                      (fun _ _ _ => Raise (RuntimeError "CUDA error")))
           (lit "hi") loaded_world) = Ok s
    /\ s = lit "hi".
Proof.
  destruct (correct_arabic_text_absorbs_runtime_failures
              (mkBackend cuda (Ok sample_tokenizer) (fun _ => Ok tt)
                         (fun _ _ _ => Raise (RuntimeError "CUDA error")))
              (lit "hi") loaded_world) as [s [Hs Hboth]].
  - unfold loaded. simpl. repeat split; discriminate.
  - discriminate.
  - unfold max_text_length. simpl. lia.
  - split; simpl; intros; try discriminate.
    match goal with H : Raise _ = Raise _ |- _ => now inversion H end.
  - exists s. split; trivial.
    apply (Hboth sample_tokenizer (mkPipeline cuda)); trivial.
    + now eexists.
    + eexists. right. reflexivity.
Defined.

Lemma fallback_tier_not_silent (be : Backend) (text prompt : str) (w : World) :
  snd (fallback_tier be text prompt w) <> w.
Proof.
  intros H. apply (f_equal (fun x => List.length (trace x))) in H. revert H.
  unfold fallback_tier.
  destruct (load_pipeline be cpu) as [[]|e].
  - destruct (run_pipeline be cpu prompt CorrectionService.fallback_args) as [full|e];
      [|destruct (isinstance_RuntimeError e)]; simpl; rewrite !length_app; simpl; lia.
  - destruct (isinstance_RuntimeError e); simpl; rewrite length_app; simpl; lia.
Qed.

(** The two tiers while every failure is a runtime failure: with the model
    loaded, the result of the primary attempt is what [correct_arabic_text]
    returns, straight after that attempt, exactly when it is non-empty and
    differs from the trimmed input.  When the primary attempt raises a
    runtime failure, or its result is empty or unchanged, a CPU pipeline is
    built and, once built, asked once with [max_new_tokens] 100 instead of
    64, sampling off on both tiers; the fallback's non-empty result is
    returned, and the original input when that result is empty, or the CPU
    pipeline or its call raises a runtime failure. *)
Theorem generation_falls_back_once
        (be : Backend) (tok : Tokenizer) (p : Pipeline) (text : str) (w : World) :
  service w = mkService (Some tok) (Some p) true ->
  let prompt := prompt_of text in
  let primary_call := EvGenerate (pipe_device p) prompt (CorrectionService.primary_args tok) in
  let fallback_call := EvGenerate cpu prompt CorrectionService.fallback_args in
  let primary := run_pipeline be (pipe_device p) prompt (CorrectionService.primary_args tok) in
  let fallback := run_pipeline be cpu prompt CorrectionService.fallback_args in
  let out := CorrectionService.correct_arabic_text be text w in
  let w1 := with_event w primary_call in
  let w2 := with_event w1 (EvLoadPipeline cpu) in
  let w3 := with_event w2 fallback_call in
  (forall r,
      out = (Ok r, w1)
      <-> exists full, primary = Ok full /\ r = extracted full
                       /\ r <> [] /\ r <> strip text)
  /\ ((exists msg, primary = Raise (RuntimeError msg))
      \/ (exists full, primary = Ok full
                       /\ (extracted full = [] \/ extracted full = strip text)) ->
      (forall full2,
          load_pipeline be cpu = Ok tt -> fallback = Ok full2 -> extracted full2 <> [] ->
          out = (Ok (extracted full2), w3))
      /\ (forall full2,
             load_pipeline be cpu = Ok tt -> fallback = Ok full2 -> extracted full2 = [] ->
             out = (Ok text, w3))
      /\ (forall msg,
             load_pipeline be cpu = Ok tt -> fallback = Raise (RuntimeError msg) ->
             out = (Ok text, w3))
      /\ (forall msg,
             load_pipeline be cpu = Raise (RuntimeError msg) -> out = (Ok text, w2)))
  /\ max_new_tokens (CorrectionService.primary_args tok) = 64%nat
  /\ max_new_tokens CorrectionService.fallback_args = 100%nat
  /\ do_sample (CorrectionService.primary_args tok) = false
  /\ do_sample CorrectionService.fallback_args = false.
Proof.
  intros Hs prompt primary_call fallback_call primary fallback out w1 w2 w3.
  assert (Hout : out = two_tiers be tok p text w)
    by apply (correct_arabic_text_two_tiers be tok p text w Hs).
  unfold two_tiers in Hout.
  fold prompt primary primary_call w1 in Hout.
  split; [|split; [|repeat split]].
  - intros r. rewrite Hout. split.
    + intros H. destruct primary as [full|e].
      * exists full. split; trivial.
        destruct (PyStr.eqb (extracted full) []) eqn:E1.
        { exfalso. apply (fallback_tier_not_silent be text prompt w1).
          now rewrite H. }
        destruct (PyStr.eqb (extracted full) (strip text)) eqn:E2.
        { exfalso. apply (fallback_tier_not_silent be text prompt w1).
          now rewrite H. }
        apply eqb_neq in E1, E2. injection H as <-. auto.
      * destruct (isinstance_RuntimeError e); [|discriminate].
        exfalso. apply (fallback_tier_not_silent be text prompt w1). now rewrite H.
    + intros [full [Hp [-> [H1 H2]]]]. rewrite Hp.
      apply eqb_neq in H1, H2. now rewrite H1, H2.
  - intros Hretry.
    assert (Hfb : out = fallback_tier be text prompt w1).
    { rewrite Hout. destruct Hretry as [[msg Hp]|[full [Hp [He|He]]]]; rewrite Hp; trivial.
      - apply eqb_eq in He. now rewrite He.
      - destruct (PyStr.eqb (extracted full) []); trivial.
        apply eqb_eq in He. now rewrite He. }
    rewrite Hfb. unfold fallback_tier. fold w2 fallback fallback_call w3.
    repeat split.
    + intros full2 -> -> He. apply eqb_neq in He. now rewrite He.
    + intros full2 -> -> He. apply eqb_eq in He. now rewrite He.
    + now intros msg -> ->.
    + now intros msg ->.
Qed.

(** C3 (the code departs from it): on the loaded service and the text [hi]
    the primary attempt returns the bare prompt, whose extracted result is
    empty; generation is retried once on a freshly built CPU pipeline with
    [max_new_tokens] 100 instead of 64 and sampling off, and that call
    raises a [ValueError].  The fallback has failed, and
    [correct_arabic_text] raises the [ValueError] instead of returning the
    original input [hi]. *)
Theorem fallback_failure_is_raised :
  run_pipeline rejecting_cpu_backend cuda (prompt_of (lit "hi"))
               (CorrectionService.primary_args sample_tokenizer)
  = Ok (prompt_of (lit "hi"))
  /\ extracted (prompt_of (lit "hi")) = []
  /\ run_pipeline rejecting_cpu_backend cpu (prompt_of (lit "hi"))
                  CorrectionService.fallback_args
     = Raise (ValueError "unexpected keyword argument")
  /\ max_new_tokens (CorrectionService.primary_args sample_tokenizer) = 64%nat
  /\ max_new_tokens CorrectionService.fallback_args = 100%nat
  /\ do_sample (CorrectionService.primary_args sample_tokenizer) = false
  /\ do_sample CorrectionService.fallback_args = false
  /\ CorrectionService.correct_arabic_text rejecting_cpu_backend (lit "hi") loaded_world
     = (Raise (ValueError "unexpected keyword argument"),
        with_event
          (with_event
             (with_event loaded_world
                (EvGenerate cuda (prompt_of (lit "hi"))
                            (CorrectionService.primary_args sample_tokenizer)))
             (EvLoadPipeline cpu))
          (EvGenerate cpu (prompt_of (lit "hi")) CorrectionService.fallback_args)).
Proof.
  repeat split.
Qed.

(** A fallback that fails otherwise than by a runtime failure is not
    turned into the original input: the primary result is empty, the CPU
    call raises a [ValueError], and so does [correct_arabic_text]. *)
Lemma fallback_failure_can_propagate :
  ~ (forall (be : Backend) (tok : Tokenizer) (p : Pipeline) (text : str) (w : World) (e : exn),
        service w = mkService (Some tok) (Some p) true ->
        (exists full,
            run_pipeline be (pipe_device p) (prompt_of text)
                         (CorrectionService.primary_args tok) = Ok full
            /\ extracted full = []) ->
        run_pipeline be cpu (prompt_of text) CorrectionService.fallback_args = Raise e ->
        fst (CorrectionService.correct_arabic_text be text w) = Ok text).
Proof.
  intros H.
  specialize (H rejecting_cpu_backend sample_tokenizer (mkPipeline cuda) (lit "hi")
                loaded_world (ValueError "unexpected keyword argument") eq_refl).
  assert (Hout : fst (CorrectionService.correct_arabic_text rejecting_cpu_backend (lit "hi")
                        loaded_world)
                 = Raise (ValueError "unexpected keyword argument")) by reflexivity.
  rewrite Hout in H. discriminate H.
  - exists (prompt_of (lit "hi")). split; reflexivity.
  - reflexivity.
Qed.

(** An echoing runtime: the primary result equals the input, the CPU
    pipeline is built and asked once, and its answer comes back. *)
Lemma generation_falls_back_once_witness :
  CorrectionService.correct_arabic_text (completing_backend (lit "hi")) (lit "hi") loaded_world
  = (Ok (lit "hi"),
     with_event
       (with_event
          (with_event loaded_world
             (EvGenerate cuda (prompt_of (lit "hi"))
                         (CorrectionService.primary_args sample_tokenizer)))
          (EvLoadPipeline cpu))
       (EvGenerate cpu (prompt_of (lit "hi")) CorrectionService.fallback_args)).
Proof.
  pose proof (generation_falls_back_once (completing_backend (lit "hi")) sample_tokenizer
                (mkPipeline cuda) (lit "hi") loaded_world eq_refl) as H.
  cbv zeta in H. destruct H as [_ [H _]].
  destruct H as [H _].
  - right. exists (prompt_of (lit "hi") ++ lit "hi"). split; [reflexivity|].
    right. reflexivity.
  - apply (H (prompt_of (lit "hi") ++ lit "hi")); [reflexivity | reflexivity |].
    vm_compute. discriminate.
Defined.

(** ** Status codes of the JSON routes *)

(** A handler wrapped in [except Exception] that re-raises a 500 answers
    with its success status or with 500, whatever its body raises. *)
Lemma except_Exception_status (A : Type) (body : M A) (success : Z) (w : World) :
  let out := try_except body isinstance_Exception
               (fun e => raise (HTTPException 500 "Internal server error")) w in
  (exists a, fst out = Ok a /\ fst (body w) = Ok a)
  \/ ((exists e, fst (body w) = Raise e)
      /\ fst out = Raise (HTTPException 500 "Internal server error")).
Proof.
  unfold try_except. destruct (body w) as [[a|e] w']; simpl.
  - left. now exists a.
  - right. split; [now exists e | reflexivity].
Qed.

Lemma correct_text_unloaded (be : Backend) (request : TextCorrectionRequest) (w : World) :
  pipe (service w) = None \/ tokenizer (service w) = None ->
  fst (ApiRoutes.correct_text be request w) = Raise (HTTPException 500 "Internal server error").
Proof.
  intros H. unfold ApiRoutes.correct_text, try_except, bind, get_service.
  replace (is_None (pipe (service w)) || is_None (tokenizer (service w))) with true.
  - reflexivity.
  - destruct H as [-> | ->]; simpl; trivial. now rewrite orb_true_r.
Qed.

(** C4 (the code departs from it): before startup, when neither pipeline nor
    tokenizer exists, the valid body [hi] posted to the correction route, and
    every request its handler receives, is answered with status 500; in no
    state of the service is the handler's answer 503. *)
Theorem correct_text_unloaded_answers_500 :
  (forall be,
      http_status 200 (fst (ApiRoutes.post_gec_correct be (lit "hi") initial_world)) = 500%Z)
  /\ (forall be request,
         http_status 200 (fst (ApiRoutes.correct_text be request initial_world)) = 500%Z)
  /\ (forall be request w,
         http_status 200 (fst (ApiRoutes.correct_text be request w)) <> 503%Z).
Proof.
  split; [|split].
  - intros be. reflexivity.
  - intros be request. reflexivity.
  - intros be request w. unfold ApiRoutes.correct_text.
    match goal with
    | |- context [try_except ?b _ _ w] =>
        destruct (except_Exception_status _ b 200%Z w) as [[a [-> _]]|[_ ->]]
    end; simpl; discriminate.
Qed.

(** C5 (the code departs from it): the health handler reports
    [model_loaded] true in every state, the freshly constructed service
    whose flag is false included. *)
Theorem health_check_always_reports_loaded :
  (forall w, exists h w',
      ApiRoutes.health_check w = (Ok h, w') /\ health_model_loaded h = true)
  /\ model_loaded (service initial_world) = false
  /\ fst (ApiRoutes.health_check initial_world) = Ok (mkHealth "healthy" 0 true).
Proof.
  split; [|split; reflexivity].
  intros w. eexists. eexists. split; reflexivity.
Qed.

(** After a successful startup the flag is set, and the report is true. *)
Lemma health_after_startup (be : Backend) (tok : Tokenizer) :
  load_tokenizer be = Ok tok -> load_pipeline be (preferred_device be) = Ok tt ->
  model_loaded (service (snd (lifespan_startup be initial_world))) = true.
Proof.
  intros Ht Hp. unfold lifespan_startup, CorrectionService.initialize_model,
    CorrectionService.pipeline, try_except, bind, lift, log, get_service, set_service.
  rewrite Ht. simpl. rewrite Hp. reflexivity.
Qed.

(** C6 (the code departs from it): the delete route never answers 404.
    With only ids 1, 2 and 3 stored, deleting id 7 is answered with 500;
    deleting the stored id 2 is answered with 204 and removes the record. *)
Theorem delete_missing_answers_500 :
  (forall text_id w,
      http_status 204 (fst (ApiRoutes.delete_gec_delete text_id w)) <> 404%Z)
  /\ http_status 204 (fst (ApiRoutes.delete_gec_delete 7 sample_store_world)) = 500%Z
  /\ http_status 204 (fst (ApiRoutes.delete_gec_delete 2 sample_store_world)) = 204%Z
  /\ map id (rows (store (snd (ApiRoutes.delete_gec_delete 2 sample_store_world))))
     = [1; 3]%Z.
Proof.
  split; [|repeat split].
  intros text_id w. unfold ApiRoutes.delete_gec_delete.
  destruct (0 <? text_id)%Z; [|simpl; discriminate].
  unfold ApiRoutes.delete_correction.
  match goal with
  | |- context [try_except ?b _ _ w] =>
      destruct (except_Exception_status _ b 204%Z w) as [[a [-> _]]|[_ ->]]
  end; simpl; discriminate.
Qed.

(** ** Validation of the submitted text *)

Lemma parse_rejects (raw : str) :
  strip raw = [] \/ (max_text_length < List.length raw)%nat ->
  exists msg, parse_TextCorrectionRequest raw = Raise (ValidationError msg).
Proof.
  intros H. unfold parse_TextCorrectionRequest, validate_text.
  destruct (List.length raw <? 1)%nat; [now eexists|].
  destruct (5000 <? List.length raw)%nat eqn:Hlen; [now eexists|].
  destruct H as [H|H].
  - rewrite H. replace (PyStr.eqb [] []) with true by reflexivity.
    rewrite orb_true_r. now eexists.
  - apply Nat.ltb_ge in Hlen. unfold max_text_length in H. lia.
Qed.

(** The JSON route leaves the runtime alone on a rejected text. *)
Lemma post_gec_correct_rejected (be : Backend) (raw : str) (w : World) :
  strip raw = [] \/ (max_text_length < List.length raw)%nat ->
  exists msg, ApiRoutes.post_gec_correct be raw w = (Raise (ValidationError msg), w).
Proof.
  intros H. destruct (parse_rejects raw H) as [msg Hm].
  exists msg. unfold ApiRoutes.post_gec_correct. now rewrite Hm.
Qed.

(** C7 (the code departs from it on the form route): the HTML form handler
    hands a text of one space to generation, and stores it, where the JSON
    route rejects the same text. *)
Theorem web_form_skips_validation :
  In (EvGenerate cuda (prompt_of (lit " "))
                 (CorrectionService.primary_args sample_tokenizer))
     (trace (snd (WebRoutes.correct_text_web (completing_backend (lit "ok")) (lit " ")
                    loaded_world)))
  /\ map original_text
         (rows (store (snd (WebRoutes.correct_text_web (completing_backend (lit "ok")) (lit " ")
                              loaded_world)))) = [lit " "]
  /\ (exists msg,
         ApiRoutes.post_gec_correct (completing_backend (lit "ok")) (lit " ") loaded_world
         = (Raise (ValidationError msg), loaded_world)).
Proof.
  split; [|split].
  - vm_compute. left. reflexivity.
  - vm_compute. reflexivity.
  - apply post_gec_correct_rejected. left. reflexivity.
Qed.

(** ** The persistence service *)

Lemma execute_fault (A : Type) (request : Store -> A * Store) (w : World) (e : exn) :
  fault (store w) = Some e -> Supabase.execute request w = (Raise e, w).
Proof.
  intros H. unfold Supabase.execute, bind, get_store. now rewrite H.
Qed.

Lemma execute_ok (A : Type) (request : Store -> A * Store) (w : World) :
  fault (store w) = None ->
  Supabase.execute request w
  = (Ok (fst (request (store w))),
     mkWorld (service w) (snd (request (store w))) (clock w) (trace w)).
Proof.
  intros H. unfold Supabase.execute, bind, get_store. now rewrite H.
Qed.

(** C10: [DatabaseService.delete_correction] returns a boolean for every
    id in every state of the store and raises nothing; it returns [False]
    when the store raises, and also when no record has the id. *)
Theorem delete_correction_total (i : Z) (w : World) :
  exists b : bool,
    fst (DatabaseService.delete_correction i w) = Ok b
    /\ (fault (store w) <> None -> b = false)
    /\ (fault (store w) = None ->
        (b = true <-> exists r, In r (rows (store w)) /\ id r = i)).
Proof.
  unfold DatabaseService.delete_correction, try_except, bind.
  destruct (fault (store w)) as [e|] eqn:Hf.
  - rewrite (execute_fault _ _ w e Hf). simpl.
    exists false. repeat split; try congruence; intros [r [_ _]]; discriminate.
  - rewrite (execute_ok _ _ w Hf). simpl.
    eexists. split; [reflexivity|]. split; [congruence|]. intros _.
    destruct (filter (fun r => (id r =? i)%Z) (rows (store w))) as [|r l] eqn:Hfl; simpl.
    + split; [discriminate|]. intros [r [Hin Hid]].
      assert (Hr : In r (filter (fun r => (id r =? i)%Z) (rows (store w)))).
      { apply filter_In. split; trivial. now apply Z.eqb_eq. }
      rewrite Hfl in Hr. destruct Hr.
    + split; trivial. intros _. exists r.
      assert (Hr : In r (filter (fun r => (id r =? i)%Z) (rows (store w))))
        by (rewrite Hfl; now left).
      apply filter_In in Hr. destruct Hr as [Hin Hid]. split; trivial.
      now apply Z.eqb_eq.
Qed.

(** On the unreachable store, deleting the stored id 2 returns [False], as
    does deleting the missing id 7 on the reachable one. *)
Lemma delete_correction_total_witness :
  fst (DatabaseService.delete_correction 2 faulty_store_world) = Ok false
  /\ fst (DatabaseService.delete_correction 7 sample_store_world) = Ok false.
Proof.
  split.
  - destruct (delete_correction_total 2 faulty_store_world) as [b [Hb [Hf _]]].
    rewrite Hb. f_equal. apply Hf. discriminate.
  - destruct (delete_correction_total 7 sample_store_world) as [b [Hb _]].
    rewrite Hb. f_equal. vm_compute in Hb. now injection Hb as <-.
Defined.

(** ** Listing, newest first *)

Section Ordering.

Variable c : Supabase.Column.
Variable desc : bool.

Local Abbreviation before := (Supabase.stands_before c desc).

Lemma in_order_total (a b : CorrectionInDB) :
  Supabase.in_order c desc a b = false -> before b a.
Proof.
  unfold Supabase.stands_before, Supabase.in_order. destruct desc; intros H; apply Z.leb_gt in H;
    apply Z.leb_le; lia.
Qed.

Lemma insert_ordered_perm (r : CorrectionInDB) (l : list CorrectionInDB) :
  Permutation (r :: l) (Supabase.insert_ordered c desc r l).
Proof.
  induction l as [|x t IH]; simpl; [reflexivity|].
  destruct (Supabase.in_order c desc r x); [reflexivity|].
  rewrite perm_swap. now constructor.
Qed.

Lemma insert_ordered_hd (r x : CorrectionInDB) (l : list CorrectionInDB) :
  before x r -> HdRel before x l -> HdRel before x (Supabase.insert_ordered c desc r l).
Proof.
  intros Hxr Hl. destruct l as [|y t]; simpl.
  - now constructor.
  - destruct (Supabase.in_order c desc r y); constructor; trivial.
    now inversion Hl.
Qed.

Lemma insert_ordered_sorted (r : CorrectionInDB) (l : list CorrectionInDB) :
  Sorted before l -> Sorted before (Supabase.insert_ordered c desc r l).
Proof.
  induction 1 as [|x t Ht IH Hhd]; simpl.
  - repeat constructor.
  - destruct (Supabase.in_order c desc r x) eqn:E.
    + constructor; [now constructor|]. now constructor.
    + constructor; trivial. apply insert_ordered_hd; trivial.
      now apply in_order_total.
Qed.

Lemma order_perm (l : list CorrectionInDB) :
  Permutation l (Supabase.order c desc l).
Proof.
  induction l as [|r l IH]; simpl; [reflexivity|].
  rewrite <- insert_ordered_perm. now constructor.
Qed.

Lemma order_sorted (l : list CorrectionInDB) :
  Sorted before (Supabase.order c desc l).
Proof.
  induction l as [|r l IH]; simpl; [constructor | now apply insert_ordered_sorted].
Qed.

End Ordering.

Lemma sorted_adjacent (R : CorrectionInDB -> CorrectionInDB -> Prop)
      (l : list CorrectionInDB) (a b : CorrectionInDB) :
  Sorted R l -> adjacent l a b -> R a b.
Proof.
  intros Hs [i [Ha Hb]]. revert l Hs Ha Hb.
  induction i as [|i IH]; intros [|x t] Hs Ha Hb; simpl in *; try discriminate.
  - injection Ha as ->. destruct t as [|y t]; simpl in *; [discriminate|].
    injection Hb as ->. apply Sorted_inv in Hs. destruct Hs as [_ Hhd].
    now inversion Hhd.
  - apply Sorted_inv in Hs. destruct Hs as [Hs _]. now apply (IH t).
Qed.

(** C8: while the store is reachable, the list operation returns every
    stored record, none twice and nothing else, and leaves the world as it
    was; in the returned list every record's creation time is at least that
    of the record right after it. *)
Theorem get_all_newest_first (w : World) :
  fault (store w) = None ->
  exists l,
    ApiRoutes.get_all_text w = (Ok l, w)
    /\ Permutation (rows (store w)) l
    /\ forall a b, adjacent l a b -> (created_at b <= created_at a)%Z.
Proof.
  intros Hf. exists (Supabase.order Supabase.col_created_at true (rows (store w))).
  split; [|split].
  - unfold ApiRoutes.get_all_text, DatabaseService.get_all_corrections, try_except.
    rewrite (execute_ok _ _ w Hf). simpl. now destruct w.
  - apply order_perm.
  - intros a b Hab.
    pose proof (sorted_adjacent _ _ a b
                  (order_sorted Supabase.col_created_at true (rows (store w))) Hab) as H.
    now apply Z.leb_le in H.
Qed.

(** The three sample records come back in the order 30, 20, 10. *)
Lemma get_all_newest_first_witness :
  exists l,
    ApiRoutes.get_all_text sample_store_world = (Ok l, sample_store_world)
    /\ map created_at l = [30; 20; 10]%Z.
Proof.
  destruct (get_all_newest_first sample_store_world eq_refl) as [l [Hl _]].
  exists l. split; trivial.
  vm_compute in Hl. now injection Hl as <-.
Defined.

(** ** What the JSON route passes on *)

Lemma parse_accepts_stripped (raw : str) (request : TextCorrectionRequest) :
  parse_TextCorrectionRequest raw = Ok request -> request = mkRequest (strip raw).
Proof.
  unfold parse_TextCorrectionRequest, validate_text.
  destruct (List.length raw <? 1)%nat; [discriminate|].
  destruct (5000 <? List.length raw)%nat; [discriminate|].
  destruct (PyStr.eqb raw [] || PyStr.eqb (strip raw) []); [discriminate|].
  now intros [= <-].
Qed.

Ltac close_effects :=
  simpl; unfold with_event; simpl; rewrite <- ?app_assoc; simpl;
  eexists; split; [reflexivity | intros; simpl in *; intuition congruence].

Lemma correct_arabic_text_guard (be : Backend) (text : str) (w : World) :
  (exists tok p, service w = mkService (Some tok) (Some p) true)
  \/ CorrectionService.correct_arabic_text be text w
     = (Raise (ValueError "Model not loaded"), w).
Proof.
  unfold CorrectionService.correct_arabic_text, bind, get_service.
  destruct (service w) as [[tok|] [p|] [|]]; simpl; auto.
  left. now exists tok, p.
Qed.

(** Inference touches nothing but the trace, and every generation it asks
    for is on the prompt built from its argument. *)
Lemma correct_arabic_text_effects (be : Backend) (text : str) (w : World) :
  exists evs,
    snd (CorrectionService.correct_arabic_text be text w)
    = mkWorld (service w) (store w) (clock w) (trace w ++ evs)
    /\ forall d prompt args, In (EvGenerate d prompt args) evs -> prompt = prompt_of text.
Proof.
  destruct (correct_arabic_text_guard be text w) as [[tok [p Hs]]|Hraise].
  2:{ rewrite Hraise. exists []. rewrite app_nil_r.
      split; [now destruct w | intros ? ? ? []]. }
  rewrite (correct_arabic_text_two_tiers be tok p text w Hs).
  unfold two_tiers, fallback_tier.
  destruct (run_pipeline be (pipe_device p) (prompt_of text)
              (CorrectionService.primary_args tok)) as [full|e];
    [destruct (PyStr.eqb (extracted full) []);
     [|destruct (PyStr.eqb (extracted full) (strip text))]
    |destruct (isinstance_RuntimeError e)];
    try close_effects;
    (destruct (load_pipeline be cpu) as [[]|e1];
     [destruct (run_pipeline be cpu (prompt_of text) CorrectionService.fallback_args)
        as [full2|e2]; [|destruct (isinstance_RuntimeError e2)]
     |destruct (isinstance_RuntimeError e1)]);
    close_effects.
Qed.

Lemma create_correction_eq (c : CorrectionCreate) (w : World) :
  DatabaseService.create_correction c w
  = match fault (store w) with
    | Some e => (Raise e, mkWorld (service w) (store w) (clock w + 1)%Z (trace w))
    | None =>
        let row := mkRow (next_id (store w)) (create_original_text c)
                         (create_corrected_text c) (clock w) in
        (Ok row,
         mkWorld (service w)
                 (mkStore (rows (store w) ++ [row]) (next_id (store w) + 1)%Z
                          (fault (store w)))
                 (clock w + 1)%Z (trace w))
    end.
Proof.
  unfold DatabaseService.create_correction, try_except, bind, now.
  destruct (fault (store w)) as [e|] eqn:Hf.
  - rewrite (execute_fault _ _ (mkWorld _ (store w) _ _) e Hf). reflexivity.
  - rewrite (execute_ok _ _ (mkWorld _ (store w) _ _) Hf). simpl. now rewrite Hf.
Qed.

Lemma create_correction_effects (c : CorrectionCreate) (w : World) :
  trace (snd (DatabaseService.create_correction c w)) = trace w
  /\ forall row,
      fst (DatabaseService.create_correction c w) = Ok row ->
      rows (store (snd (DatabaseService.create_correction c w))) = rows (store w) ++ [row]
      /\ original_text row = create_original_text c
      /\ corrected_text row = create_corrected_text c.
Proof.
  rewrite create_correction_eq.
  destruct (fault (store w)) as [e|]; simpl.
  - split; [reflexivity | discriminate].
  - split; [reflexivity|]. now intros row [= <-].
Qed.

Lemma correct_text_eq (be : Backend) (request : TextCorrectionRequest) (w : World) :
  ApiRoutes.correct_text be request w
  = if is_None (pipe (service w)) || is_None (tokenizer (service w))
    then (Raise (HTTPException 500 "Internal server error"), w)
    else
      match CorrectionService.correct_arabic_text be (text request) w with
      | (Raise e, w1) => (Raise (HTTPException 500 "Internal server error"), w1)
      | (Ok corrected, w1) =>
          match DatabaseService.create_correction (mkCreate (text request) corrected) w1 with
          | (Raise e, w2) => (Raise (HTTPException 500 "Internal server error"), w2)
          | (Ok row, w2) =>
              (Ok (mkResponse (Some (id row)) (text request) corrected (created_at row)), w2)
          end
      end.
Proof.
  unfold ApiRoutes.correct_text, try_except, bind, get_service.
  destruct (is_None (pipe (service w)) || is_None (tokenizer (service w))); [reflexivity|].
  destruct (CorrectionService.correct_arabic_text be (text request) w) as [[corrected|e] w1];
    [|reflexivity].
  now destruct (DatabaseService.create_correction (mkCreate (text request) corrected) w1)
    as [[row|e] w2].
Qed.

Lemma primary_call_first (be : Backend) (tok : Tokenizer) (p : Pipeline)
      (text : str) (w : World) :
  service w = mkService (Some tok) (Some p) true ->
  exists rest,
    trace (snd (CorrectionService.correct_arabic_text be text w))
    = trace w ++ EvGenerate (pipe_device p) (prompt_of text)
                            (CorrectionService.primary_args tok) :: rest.
Proof.
  intros Hs. rewrite (correct_arabic_text_two_tiers be tok p text w Hs).
  unfold two_tiers, fallback_tier.
  destruct (run_pipeline be (pipe_device p) (prompt_of text)
              (CorrectionService.primary_args tok)) as [full|e];
    [destruct (PyStr.eqb (extracted full) []);
     [|destruct (PyStr.eqb (extracted full) (strip text))]
    |destruct (isinstance_RuntimeError e)];
    try (exists []; reflexivity);
    (destruct (load_pipeline be cpu) as [[]|e1];
     [destruct (run_pipeline be cpu (prompt_of text) CorrectionService.fallback_args)
        as [full2|e2]; [|destruct (isinstance_RuntimeError e2)]
     |destruct (isinstance_RuntimeError e1)]);
    simpl; rewrite <- ?app_assoc; simpl; eexists; reflexivity.
Qed.

(** C9: for a submitted text the validator accepts, the request carries the
    stripped text, and inference is run on it: past the handler's guard the
    runtime calls of the route are exactly those of [correct_arabic_text] on
    the stripped text, on a loaded service they begin with a generation on
    the prompt built from the stripped text, and every generation the route
    asks for is on that prompt.  When the route answers, the correction in
    the response is what [correct_arabic_text] returned for the stripped
    text, the response echoes the stripped text as [original_text], and the
    record added to the store holds both; and whenever inference on the
    stripped text returns and the store is reachable, the route answers with
    that correction. *)
Theorem accepted_text_is_stripped
        (be : Backend) (raw : str) (request : TextCorrectionRequest) (w : World) :
  parse_TextCorrectionRequest raw = Ok request ->
  let out := ApiRoutes.post_gec_correct be raw w in
  let inference := CorrectionService.correct_arabic_text be (strip raw) w in
  text request = strip raw
  /\ (exists evs,
         trace (snd out) = trace w ++ evs
         /\ forall d prompt args,
             In (EvGenerate d prompt args) evs -> prompt = prompt_of (strip raw))
  /\ (forall resp,
         fst out = Ok resp ->
         resp_original_text resp = strip raw
         /\ exists row,
             rows (store (snd out)) = rows (store w) ++ [row]
             /\ original_text row = strip raw
             /\ corrected_text row = resp_corrected_text resp
             /\ resp_id resp = Some (id row))
  /\ (pipe (service w) <> None -> tokenizer (service w) <> None ->
      trace (snd out) = trace (snd inference))
  /\ (forall tok p,
         service w = mkService (Some tok) (Some p) true ->
         exists rest,
           trace (snd out)
           = trace w ++ EvGenerate (pipe_device p) (prompt_of (strip raw))
                                   (CorrectionService.primary_args tok) :: rest)
  /\ (forall resp, fst out = Ok resp -> fst inference = Ok (resp_corrected_text resp))
  /\ (forall corrected,
         pipe (service w) <> None -> tokenizer (service w) <> None ->
         fst inference = Ok corrected -> fault (store w) = None ->
         exists resp, fst out = Ok resp /\ resp_corrected_text resp = corrected).
Proof.
  intros Hparse out inference. subst out inference.
  unfold ApiRoutes.post_gec_correct. rewrite Hparse.
  apply parse_accepts_stripped in Hparse. subst request. cbn [text].
  split; [reflexivity|].
  rewrite correct_text_eq. cbn [text].
  destruct (is_None (pipe (service w)) || is_None (tokenizer (service w))) eqn:Hg.
  - assert (Hnone : pipe (service w) = None \/ tokenizer (service w) = None).
    { destruct (pipe (service w)), (tokenizer (service w)); simpl in Hg; auto; discriminate. }
    cbn [fst snd].
    split; [exists []; rewrite app_nil_r; split; [reflexivity | intros ? ? ? []]|].
    split; [discriminate|].
    split; [intros Hp Ht; destruct Hnone; contradiction|].
    split; [intros tok p Hs; rewrite Hs in Hnone; destruct Hnone; discriminate|].
    split; [discriminate|].
    intros corrected Hp Ht. destruct Hnone; contradiction.
  - destruct (correct_arabic_text_effects be (strip raw) w) as [evs [Hw Hevs]].
    pose proof (primary_call_first be) as Hfirst.
    specialize (fun tok p => Hfirst tok p (strip raw) w).
    destruct (CorrectionService.correct_arabic_text be (strip raw) w) as [[corrected|e] w1];
      simpl in Hw; subst w1; cbn [fst snd] in *.
    + rewrite create_correction_eq. cbn [store fault clock service trace rows next_id].
      destruct (fault (store w)) as [e|] eqn:Hf; cbv zeta; cbn [fst snd trace].
      * split; [exists evs; split; [reflexivity | assumption]|].
        split; [discriminate|]. split; [reflexivity|]. split; [exact Hfirst|].
        split; discriminate.
      * split; [exists evs; split; [reflexivity | assumption]|].
        split.
        { intros resp [= <-]. cbn. split; [reflexivity|]. eexists.
          repeat split; reflexivity. }
        split; [reflexivity|]. split; [exact Hfirst|].
        split; [now intros resp [= <-]|].
        intros c _ _ [= <-] _. eexists. split; reflexivity.
    + split; [exists evs; split; [reflexivity | assumption]|].
      split; [discriminate|]. split; [reflexivity|]. split; [exact Hfirst|].
      split; discriminate.
Qed.

(** The padded text [" hi "] is corrected and stored as [hi], after a
    generation on the prompt for [hi]. *)
Lemma accepted_text_is_stripped_witness :
  exists resp rest,
    fst (ApiRoutes.post_gec_correct (completing_backend (lit "HELLO<end_of_turn>"))
           (lit " hi ") loaded_world) = Ok resp
    /\ resp_original_text resp = lit "hi"
    /\ resp_corrected_text resp = lit "HELLO"
    /\ trace (snd (ApiRoutes.post_gec_correct (completing_backend (lit "HELLO<end_of_turn>"))
                     (lit " hi ") loaded_world))
       = EvGenerate cuda (prompt_of (lit "hi"))
                    (CorrectionService.primary_args sample_tokenizer) :: rest.
Proof.
  pose proof (accepted_text_is_stripped (completing_backend (lit "HELLO<end_of_turn>"))
                (lit " hi ") (mkRequest (lit "hi")) loaded_world eq_refl) as H.
  cbv zeta in H. destruct H as [_ [_ [H [_ [Hfirst [Hinf _]]]]]].
  destruct (Hfirst sample_tokenizer (mkPipeline cuda) eq_refl) as [rest Hrest].
  eexists. exists rest. split; [reflexivity|].
  split; [now destruct (H _ eq_refl) as [-> _]|].
  split; [reflexivity | exact Hrest].
Defined.

(** * Further properties of the code *)

(** ** Stripped strings *)

Lemma lstrip_idempotent (s : str) : lstrip (lstrip s) = lstrip s.
Proof.
  induction s as [|c t IH]; simpl; trivial.
  destruct (isspace c) eqn:Hc; trivial. simpl. now rewrite Hc.
Qed.

Lemma lstrip_snoc (l : str) (c : char) :
  isspace c = false -> lstrip (l ++ [c]) = lstrip l ++ [c].
Proof.
  intros Hc. induction l as [|x t IH]; simpl.
  - now rewrite Hc.
  - now destruct (isspace x).
Qed.

Lemma rstrip_cons (c : char) (t : str) :
  isspace c = false -> rstrip (c :: t) = c :: rstrip t.
Proof.
  intros Hc. unfold rstrip. simpl. rewrite lstrip_snoc by trivial.
  now rewrite rev_app_distr.
Qed.

Lemma rstrip_idempotent (s : str) : rstrip (rstrip s) = rstrip s.
Proof.
  unfold rstrip. now rewrite rev_involutive, lstrip_idempotent.
Qed.

Lemma lstrip_head (s t : str) (c : char) :
  lstrip s = c :: t -> isspace c = false.
Proof.
  induction s as [|x u IH]; simpl; [discriminate|].
  destruct (isspace x) eqn:Hx; trivial. now intros [= <- _].
Qed.

Lemma strip_stripped (s : str) : stripped (strip s).
Proof.
  unfold stripped, strip. split; [|apply rstrip_idempotent].
  destruct (lstrip s) as [|c t] eqn:E; [reflexivity|].
  pose proof (lstrip_head s t c E) as Hc.
  rewrite rstrip_cons by trivial. simpl. now rewrite Hc.
Qed.

Lemma strip_idempotent (s : str) : strip (strip s) = strip s.
Proof.
  destruct (strip_stripped s) as [Hl Hr]. unfold strip at 1. now rewrite Hl.
Qed.

Lemma strip_length (s : str) : (List.length (strip s) <= List.length s)%nat.
Proof.
  destruct (strip_split s) as [ws1 [ws2 [Hs _]]].
  apply (f_equal (@List.length char)) in Hs. rewrite !length_app in Hs. lia.
Qed.

Lemma extract_model_response_is_strip (s : str) :
  exists t, extract_model_response s = strip t.
Proof.
  unfold extract_model_response.
  destruct (contains model_marker s); [eexists; reflexivity|].
  destruct (contains alt_marker s); eexists; reflexivity.
Qed.

(** X1: whatever the generated text, the extracted response has no
    whitespace at either end and is not longer than the generated text, so
    the [strip] calls applied to it by [correct_arabic_text] return it
    unchanged. *)
Theorem extract_model_response_stripped (s : str) :
  stripped (extract_model_response s)
  /\ extracted s = extract_model_response s
  /\ (List.length (extract_model_response s) <= List.length s)%nat.
Proof.
  destruct (extract_model_response_is_strip s) as [t Ht].
  split; [|split].
  - rewrite Ht. apply strip_stripped.
  - unfold extracted. rewrite Ht. apply strip_idempotent.
  - assert (Hrep : forall n old x,
               (List.length (replace_scan n old [] x) <= List.length x)%nat).
    { intros n old. induction n as [|n IH]; intros x; simpl; [lia|].
      destruct (startswith old x).
      - rewrite IH, length_skipn. lia.
      - destruct x as [|c x]; simpl; [lia|]. specialize (IH x). lia. }
    assert (Hcut : forall i,
               (List.length (strip (replace (strip (slice_from s i)) end_of_turn []))
                <= List.length s)%nat).
    { intros i. rewrite strip_length.
      rewrite (replace_nonempty end_of_turn [] (proj1 end_of_turn_facts)
                 (proj2 end_of_turn_facts)).
      rewrite Hrep, strip_length. unfold slice_from. rewrite length_skipn. lia. }
    unfold extract_model_response.
    destruct (contains model_marker s); [apply Hcut|].
    destruct (contains alt_marker s); [apply Hcut | apply strip_length].
Qed.

(** ** Extraction on a prompt followed by a completion *)

Section Occurrences.

Variable m : str.

Lemma startswith_foreign (y r : str) (c : char) :
  foreign m c -> startswith m (y ++ c :: r) = startswith m y.
Proof.
  unfold foreign. revert y. induction m as [|a p IH]; intros y H; trivial.
  simpl in H. apply andb_true_iff in H. destruct H as [Ha Hp].
  destruct y as [|b y]; simpl.
  - apply negb_true_iff in Ha. now rewrite Ha.
  - now rewrite IH.
Qed.

Lemma contains_false_cons (c : char) (t : str) :
  contains m (c :: t) = false -> startswith m (c :: t) = false /\ contains m t = false.
Proof.
  cbn [contains]. intros H. now apply orb_false_iff in H.
Qed.

Lemma contains_cons (x : char) (s : str) :
  contains m (x :: s) = startswith m (x :: s) || contains m s.
Proof. reflexivity. Qed.

Lemma after_first_cons (x : char) (s : str) :
  after_first m (x :: s)
  = if startswith m (x :: s) then Some (skipn (List.length m) (x :: s)) else after_first m s.
Proof. reflexivity. Qed.

Lemma contains_app_foreign (s r : str) (c : char) :
  contains m s = false -> foreign m c ->
  contains m (s ++ c :: r) = contains m (c :: r).
Proof.
  intros Hs Hc. induction s as [|x t IH]; trivial.
  apply contains_false_cons in Hs. destruct Hs as [Hsw Ht].
  change ((x :: t) ++ c :: r) with (x :: (t ++ c :: r)).
  rewrite (contains_cons x (t ++ c :: r)), (IH Ht).
  change (x :: t ++ c :: r) with ((x :: t) ++ c :: r).
  now rewrite (startswith_foreign (x :: t) r c Hc), Hsw.
Qed.

Lemma after_first_app_foreign (s r : str) (c : char) :
  contains m s = false -> foreign m c ->
  after_first m (s ++ c :: r) = after_first m (c :: r).
Proof.
  intros Hs Hc. induction s as [|x t IH]; trivial.
  apply contains_false_cons in Hs. destruct Hs as [Hsw Ht].
  change ((x :: t) ++ c :: r) with (x :: (t ++ c :: r)).
  rewrite (after_first_cons x (t ++ c :: r)), (IH Ht).
  change (x :: t ++ c :: r) with ((x :: t) ++ c :: r).
  now rewrite (startswith_foreign (x :: t) r c Hc), Hsw.
Qed.

End Occurrences.

(** A text in front of which the pattern cannot start: none of its
    characters is the pattern's first. *)
Lemma skip_non_starts (m : str) (a : char) (p pre s : str) :
  m = a :: p ->
  forallb (fun x => negb (a =? x)%N) pre = true ->
  contains m (pre ++ s) = contains m s
  /\ after_first m (pre ++ s) = after_first m s.
Proof.
  intros ->. induction pre as [|x t IH]; intros H; [now split|].
  simpl in H. apply andb_true_iff in H. destruct H as [Hx Ht].
  apply negb_true_iff in Hx. destruct (IH Ht) as [IH1 IH2].
  change ((x :: t) ++ s) with (x :: (t ++ s)).
  rewrite (contains_cons (a :: p) x (t ++ s)), (after_first_cons (a :: p) x (t ++ s)).
  cbn [startswith]. rewrite Hx. simpl. now split.
Qed.

Lemma contains_longer (c : char) (m s : str) :
  contains m s = false -> contains (c :: m) s = false.
Proof.
  induction s as [|x t IH]; intros H; [reflexivity|].
  apply contains_false_cons in H. destruct H as [_ Ht].
  cbn [contains startswith]. rewrite (IH Ht), orb_false_r.
  destruct t as [|y u].
  - simpl in Ht. rewrite orb_false_r in Ht. now rewrite Ht, andb_false_r.
  - apply contains_false_cons in Ht. destruct Ht as [Hsw _].
    now rewrite Hsw, andb_false_r.
Qed.

Lemma after_first_contains (m s tail : str) :
  after_first m s = Some tail -> contains m s = true.
Proof.
  intros H. destruct (contains m s) eqn:E; trivial.
  rewrite (after_first_none m s E) in H. discriminate.
Qed.

Lemma prompt_of_shape (text rest : str) :
  prompt_of text ++ rest
  = (lit "<start_of_turn>user" ++ NL) ++ text
    ++ (lit "<end_of_turn>" ++ NL ++ lit "<start_of_turn>") ++ alt_marker ++ rest.
Proof.
  unfold prompt_of, CorrectionService.apply_chat_template, alt_marker.
  cbn [flat_map fst snd]. rewrite app_nil_r.
  repeat rewrite <- app_assoc. reflexivity.
Qed.

(** X2: when the user's text does not contain [model] followed by a newline
    and the completion neither starts with that nor contains the
    newline-delimited marker, extracting from the prompt followed by the
    completion gives the completion with its end-of-turn markers removed and
    its ends trimmed: nothing of the prompt leaks into the correction. *)
Theorem extract_from_prompt_and_completion (text completion : str) :
  contains alt_marker text = false ->
  contains model_marker (NL ++ completion) = false ->
  extract_model_response (prompt_of text ++ completion)
  = strip (replace completion end_of_turn []).
Proof.
  intros Htext Hcompl.
  pose (trailer := lit "end_of_turn>" ++ NL ++ lit "<start_of_turn>").
  assert (Ha : after_first alt_marker (prompt_of text ++ completion) = Some completion).
  { rewrite prompt_of_shape.
    rewrite (proj2 (skip_non_starts alt_marker 109%N (lit "odel" ++ NL)
                      (lit "<start_of_turn>user" ++ NL) _ eq_refl eq_refl)).
    change ((lit "<end_of_turn>" ++ NL ++ lit "<start_of_turn>") ++ alt_marker ++ completion)
      with (60%N :: trailer ++ alt_marker ++ completion).
    rewrite (after_first_app_foreign alt_marker text _ 60%N Htext eq_refl).
    change (60%N :: trailer ++ alt_marker ++ completion)
      with ((60%N :: trailer) ++ alt_marker ++ completion).
    rewrite (proj2 (skip_non_starts alt_marker 109%N (lit "odel" ++ NL)
                      (60%N :: trailer) _ eq_refl eq_refl)).
    reflexivity. }
  assert (Hm : contains model_marker (prompt_of text ++ completion) = false).
  { rewrite prompt_of_shape.
    change ((lit "<start_of_turn>user" ++ NL) ++ text
            ++ (lit "<end_of_turn>" ++ NL ++ lit "<start_of_turn>") ++ alt_marker ++ completion)
      with (lit "<start_of_turn>user"
            ++ 10%N :: text ++ 60%N :: trailer ++ alt_marker ++ completion).
    rewrite (proj1 (skip_non_starts model_marker 10%N alt_marker
                      (lit "<start_of_turn>user") _ eq_refl eq_refl)).
    rewrite contains_cons. apply orb_false_iff. split.
    - change (startswith model_marker
                (10%N :: text ++ 60%N :: trailer ++ alt_marker ++ completion))
        with (startswith alt_marker (text ++ 60%N :: trailer ++ alt_marker ++ completion)).
      rewrite (startswith_foreign alt_marker text _ 60%N eq_refl).
      destruct text as [|x t]; [reflexivity|].
      now apply contains_false_cons in Htext.
    - rewrite (contains_app_foreign model_marker text _ 60%N
                 (contains_longer 10%N alt_marker text Htext) eq_refl).
      change (60%N :: trailer ++ alt_marker ++ completion)
        with (lit "<end_of_turn>"
              ++ 10%N :: lit "<start_of_turn>model" ++ NL ++ completion).
      rewrite (proj1 (skip_non_starts model_marker 10%N alt_marker
                        (lit "<end_of_turn>") _ eq_refl eq_refl)).
      rewrite contains_cons. apply orb_false_iff. split; [reflexivity|].
      rewrite (proj1 (skip_non_starts model_marker 10%N alt_marker
                        (lit "<start_of_turn>model") _ eq_refl eq_refl)).
      exact Hcompl. }
  unfold extract_model_response. rewrite Hm, (after_first_contains _ _ _ Ha).
  rewrite (extract_after_marker _ _ (after_first_contains _ _ _ Ha)), Ha.
  reflexivity.
Qed.

(** The prompt for [hi] followed by a padded completion with its
    end-of-turn marker. *)
Lemma extract_from_prompt_and_completion_witness :
  extract_model_response (prompt_of (lit "hi") ++ lit " HELLO <end_of_turn>") = lit "HELLO".
Proof.
  rewrite (extract_from_prompt_and_completion (lit "hi") (lit " HELLO <end_of_turn>"));
    reflexivity.
Defined.

Lemma startswith_app_long (m y r : str) :
  (List.length m <= List.length y)%nat -> startswith m (y ++ r) = startswith m y.
Proof.
  revert y. induction m as [|a p IH]; intros y H; trivial.
  destruct y as [|b y]; simpl in *; [lia|]. rewrite IH; trivial. lia.
Qed.

Lemma after_first_length (m s tail : str) :
  after_first m s = Some tail -> (List.length m <= List.length s)%nat.
Proof.
  induction s as [|x t IH]; cbn [after_first].
  - destruct (startswith m []) eqn:E; [|discriminate]. intros _.
    now apply startswith_length.
  - destruct (startswith m (x :: t)) eqn:E.
    + intros _. now apply startswith_length.
    + intros H. apply IH in H. simpl. lia.
Qed.

(** An occurrence found in a text is still the first one when more text
    follows. *)
Lemma after_first_app (m s r tail : str) :
  after_first m s = Some tail -> after_first m (s ++ r) = Some (tail ++ r).
Proof.
  induction s as [|x t IH]; intros H.
  - cbn [after_first] in H. destruct (startswith m []) eqn:E; [|discriminate].
    destruct m; [|discriminate]. injection H as <-. simpl.
    destruct r; reflexivity.
  - pose proof (after_first_length _ _ _ H) as Hlen.
    change ((x :: t) ++ r) with (x :: (t ++ r)).
    rewrite after_first_cons. rewrite after_first_cons in H.
    change (x :: t ++ r) with ((x :: t) ++ r).
    rewrite (startswith_app_long m (x :: t) r Hlen).
    destruct (startswith m (x :: t)).
    + injection H as <-. rewrite skipn_app.
      replace (List.length m - List.length (x :: t))%nat with 0%nat by lia.
      reflexivity.
    + now apply IH.
Qed.

(** X3: when the user's text itself contains [model] followed by a newline
    and the newline-delimited marker occurs nowhere in the generated text,
    the extraction starts inside the user's text: the result is made of the
    rest of the user's text, the end of the prompt and the completion, not
    of the completion alone. *)
Theorem extract_starts_in_user_text (text rest completion : str) :
  after_first alt_marker text = Some rest ->
  contains model_marker (prompt_of text ++ completion) = false ->
  extract_model_response (prompt_of text ++ completion)
  = strip (replace (rest ++ lit "<end_of_turn>" ++ NL ++ lit "<start_of_turn>model" ++ NL
                         ++ completion)
                   end_of_turn []).
Proof.
  intros Hrest Hm.
  assert (Ha : after_first alt_marker (prompt_of text ++ completion)
               = Some (rest ++ lit "<end_of_turn>" ++ NL ++ lit "<start_of_turn>model" ++ NL
                            ++ completion)).
  { rewrite prompt_of_shape.
    rewrite (proj2 (skip_non_starts alt_marker 109%N (lit "odel" ++ NL)
                      (lit "<start_of_turn>user" ++ NL) _ eq_refl eq_refl)).
    rewrite (after_first_app alt_marker text _ rest Hrest). reflexivity. }
  unfold extract_model_response. rewrite Hm, (after_first_contains _ _ _ Ha).
  rewrite (extract_after_marker _ _ (after_first_contains _ _ _ Ha)), Ha.
  reflexivity.
Qed.

(** The text [a model], newline, [b] with the completion [C]: the
    correction carries the end of the prompt. *)
Lemma extract_starts_in_user_text_witness :
  extract_model_response
    (prompt_of (lit "a model" ++ NL ++ lit "b") ++ lit "C")
  = lit "b" ++ NL ++ lit "<start_of_turn>model" ++ NL ++ lit "C".
Proof.
  rewrite (extract_starts_in_user_text (lit "a model" ++ NL ++ lit "b") (lit "b") (lit "C"));
    reflexivity.
Defined.

(** ** The request model *)

(** X4: the request model accepts a submitted text exactly when it has 1 to
    5000 characters and is not all whitespace; the accepted text is the
    stripped submission, non-empty, without whitespace at its ends, at most
    5000 characters long, and is accepted unchanged when submitted again.
    Every rejection is a validation error. *)
Theorem request_validation (raw : str) :
  match parse_TextCorrectionRequest raw with
  | Ok request =>
      (1 <= List.length raw <= 5000)%nat
      /\ text request = strip raw
      /\ text request <> []
      /\ stripped (text request)
      /\ (List.length (text request) <= 5000)%nat
      /\ parse_TextCorrectionRequest (text request) = Ok request
  | Raise e =>
      (exists msg, e = ValidationError msg)
      /\ (raw = [] \/ (5000 < List.length raw)%nat \/ strip raw = [])
  end.
Proof.
  unfold parse_TextCorrectionRequest at 1, validate_text.
  destruct (List.length raw <? 1)%nat eqn:H1.
  { split; [now eexists|]. left. apply Nat.ltb_lt in H1. destruct raw; simpl in *; [trivial|lia]. }
  destruct (5000 <? List.length raw)%nat eqn:H2.
  { split; [now eexists|]. right. left. now apply Nat.ltb_lt. }
  apply Nat.ltb_ge in H1, H2.
  destruct (PyStr.eqb raw []) eqn:E1; simpl.
  { apply eqb_eq in E1. subst raw. simpl in H1. lia. }
  destruct (PyStr.eqb (strip raw) []) eqn:E2.
  { split; [now eexists|]. right. right. now apply eqb_eq. }
  apply eqb_neq in E2. cbn [text].
  pose proof (strip_length raw) as Hlen.
  repeat split; trivial; try lia.
  - apply strip_stripped.
  - apply strip_stripped.
  - unfold parse_TextCorrectionRequest, validate_text.
    rewrite strip_idempotent.
    replace (List.length (strip raw) <? 1)%nat with false
      by (symmetry; apply Nat.ltb_ge; destruct (strip raw); simpl; [congruence|lia]).
    replace (5000 <? List.length (strip raw))%nat with false
      by (symmetry; apply Nat.ltb_ge; lia).
    apply eqb_neq in E2. now rewrite E2.
Qed.

(** ** Loading the model *)

Lemma initialize_model_eq (be : Backend) (w : World) :
  CorrectionService.initialize_model be w
  = match load_tokenizer be with
    | Raise e => (Raise e, w)
    | Ok tok =>
        let tok' := CorrectionService.with_pad_token tok in
        let d := preferred_device be in
        let tr := trace w ++ [EvLoadPipeline d] in
        match load_pipeline be d with
        | Raise e =>
            (Raise e,
             mkWorld (mkService (Some tok') (pipe (service w)) (model_loaded (service w)))
                     (store w) (clock w) tr)
        | Ok _ =>
            (Ok tt,
             mkWorld (mkService (Some tok') (Some (mkPipeline d)) true)
                     (store w) (clock w) tr)
        end
    end.
Proof.
  unfold CorrectionService.initialize_model, CorrectionService.pipeline,
    try_except, bind, lift, log, get_service, set_service.
  destruct (load_tokenizer be) as [tok|e]; [|reflexivity]. simpl.
  now destruct (load_pipeline be (preferred_device be)) as [[]|e].
Qed.

(** X5: [initialize_model] succeeds exactly when the tokenizer and the
    pipeline for the preferred device both load; the service is then loaded,
    with the pad token defaulting to the end-of-sequence token.  When a
    loader raises, the same exception is raised again and the loaded flag and
    the pipeline stay as they were.  In both cases a service that was
    consistent (never flagged as loaded without its two objects) stays so. *)
Theorem initialize_model_outcomes (be : Backend) (w : World) :
  let out := CorrectionService.initialize_model be w in
  ((exists tok, load_tokenizer be = Ok tok /\ load_pipeline be (preferred_device be) = Ok tt
                /\ fst out = Ok tt
                /\ service (snd out)
                   = mkService (Some (CorrectionService.with_pad_token tok))
                               (Some (mkPipeline (preferred_device be))) true
                /\ (pad_token_id tok = None ->
                    option_map pad_token_id (tokenizer (service (snd out)))
                    = Some (eos_token_id tok)))
   \/ (exists e, (load_tokenizer be = Raise e
                  \/ load_pipeline be (preferred_device be) = Raise e)
                 /\ fst out = Raise e
                 /\ model_loaded (service (snd out)) = model_loaded (service w)
                 /\ pipe (service (snd out)) = pipe (service w)))
  /\ (service_consistent (service w) -> service_consistent (service (snd out)))
  /\ store (snd out) = store w.
Proof.
  intros out. subst out. rewrite initialize_model_eq.
  destruct (load_tokenizer be) as [tok|e] eqn:Ht.
  - cbv zeta. destruct (load_pipeline be (preferred_device be)) as [[]|e] eqn:Hp; simpl.
    + split; [left; exists tok; repeat split; trivial|split; trivial].
      * intros Hpad. unfold CorrectionService.with_pad_token. now rewrite Hpad.
      * intros _ _. split; discriminate.
    + split; [right; exists e; repeat split; auto|split; trivial].
      intros Hc Hm. destruct (Hc Hm) as [Hpipe _]. split; [trivial | discriminate].
  - split; [right; exists e; repeat split; auto|split; trivial].
Qed.

(** A tokenizer without pad token on a machine where everything loads. *)
Lemma initialize_model_outcomes_witness :
  service (snd (CorrectionService.initialize_model
                  (mkBackend cuda (Ok (mkTokenizer None (Some 1%Z))) (fun _ => Ok tt)
                             (fun _ prompt _ => Ok prompt))
                  initial_world))
  = mkService (Some (mkTokenizer (Some 1%Z) (Some 1%Z))) (Some (mkPipeline cuda)) true.
Proof.
  destruct (initialize_model_outcomes
              (mkBackend cuda (Ok (mkTokenizer None (Some 1%Z))) (fun _ => Ok tt)
                         (fun _ prompt _ => Ok prompt))
              initial_world) as [[[tok [Ht [_ [_ [Hs _]]]]]|[e [[He|He] _]]] [Hc _]].
  - injection Ht as <-. exact Hs.
  - discriminate He.
  - discriminate He.
Defined.

(** X6: startup never raises, whatever the loaders do.  Started from the
    freshly constructed service, the service ends up loaded exactly when
    both loaders succeeded; otherwise the flag stays unset, and the form
    route then answers with the index page and its "Model not loaded"
    message without calling the runtime or the store. *)
Theorem startup_outcomes (be : Backend) :
  let w := snd (lifespan_startup be initial_world) in
  fst (lifespan_startup be initial_world) = Ok tt
  /\ (loaded w <->
      (exists tok, load_tokenizer be = Ok tok)
      /\ load_pipeline be (preferred_device be) = Ok tt)
  /\ service_consistent (service w)
  /\ (~ loaded w ->
      forall text,
        WebRoutes.correct_text_web be text w
        = (Ok (WebRoutes.IndexPage (Some "Model not loaded"%string)), w)).
Proof.
  unfold lifespan_startup, try_except. rewrite initialize_model_eq.
  assert (Hunloaded : forall svc st ck tr,
             model_loaded svc = false ->
             ~ loaded (mkWorld svc st ck tr)
             /\ service_consistent svc
             /\ forall text,
                 WebRoutes.correct_text_web be text (mkWorld svc st ck tr)
                 = (Ok (WebRoutes.IndexPage (Some "Model not loaded"%string)),
                    mkWorld svc st ck tr)).
  { intros svc st ck tr Hm. split; [|split].
    - intros [H _]. simpl in H. congruence.
    - intros H. congruence.
    - intros text. unfold WebRoutes.correct_text_web, try_except, bind, get_service.
      simpl. now rewrite Hm. }
  destruct (load_tokenizer be) as [tok|e] eqn:Ht.
  - cbv zeta. destruct (load_pipeline be (preferred_device be)) as [[]|e] eqn:Hp; simpl.
    + split; [reflexivity|]. split; [|split].
      * split; [intros _; split; [now exists tok | reflexivity]|].
        intros _. repeat split; discriminate.
      * intros _. split; discriminate.
      * intros Hn. exfalso. apply Hn. repeat split; discriminate.
    + split; [reflexivity|].
      edestruct Hunloaded as [Hn [Hc Hweb]]; [|split; [|split; [exact Hc|intros _; exact Hweb]]];
        [reflexivity|].
      split; [intros H; now apply Hn in H | intros [_ H]; discriminate H].
  - simpl. split; [reflexivity|].
    edestruct Hunloaded as [Hn [Hc Hweb]]; [|split; [|split; [exact Hc|intros _; exact Hweb]]];
      [reflexivity|].
    split; [intros H; now apply Hn in H | intros [[tok H] _]; discriminate H].
Qed.

(** On a machine whose pipeline cannot be built, the form route answers
    with the message after startup. *)
Lemma startup_outcomes_witness :
  WebRoutes.correct_text_web offline_backend (lit "hi")
    (snd (lifespan_startup offline_backend initial_world))
  = (Ok (WebRoutes.IndexPage (Some "Model not loaded"%string)),
     snd (lifespan_startup offline_backend initial_world)).
Proof.
  destruct (startup_outcomes offline_backend) as [_ [Hl [_ Hweb]]].
  apply Hweb. intros H. apply Hl in H. destruct H as [_ H]. discriminate H.
Defined.

(** ** The form routes *)

Lemma correct_text_web_eq (be : Backend) (text : str) (w : World) :
  WebRoutes.correct_text_web be text w
  = if negb (model_loaded (service w))
    then (Ok (WebRoutes.IndexPage (Some "Model not loaded"%string)), w)
    else
      match CorrectionService.correct_arabic_text be text w with
      | (Raise e, w1) =>
          (Ok (WebRoutes.IndexPage (Some "An error occurred while correcting text"%string)), w1)
      | (Ok corrected, w1) =>
          match DatabaseService.create_correction (mkCreate text corrected) w1 with
          | (Raise e, w2) =>
              (Ok (WebRoutes.IndexPage
                     (Some "An error occurred while correcting text"%string)), w2)
          | (Ok row, w2) => (Ok (WebRoutes.CorrectionPage text corrected (id row)), w2)
          end
      end.
Proof.
  unfold WebRoutes.correct_text_web, try_except, bind, get_service.
  destruct (negb (model_loaded (service w))); [reflexivity|].
  destruct (CorrectionService.correct_arabic_text be text w) as [[corrected|e] w1];
    [|reflexivity].
  now destruct (DatabaseService.create_correction (mkCreate text corrected) w1)
    as [[row|e] w2].
Qed.

(** X7: the form route for corrections never raises: every failure of
    inference or of the store ends in the index page with a message.  It
    shows a correction page only after the record was stored, with the
    submitted text as original and the identifier the store assigned; when
    it shows the index page nothing was stored. *)
Theorem correct_text_web_never_raises (be : Backend) (text : str) (w : World) :
  let out := WebRoutes.correct_text_web be text w in
  exists page,
    fst out = Ok page
    /\ match page with
       | WebRoutes.CorrectionPage original corrected correction_id =>
           original = text
           /\ exists row,
               rows (store (snd out)) = rows (store w) ++ [row]
               /\ id row = correction_id
               /\ original_text row = text
               /\ corrected_text row = corrected
       | WebRoutes.IndexPage message =>
           message <> None /\ rows (store (snd out)) = rows (store w)
       end.
Proof.
  intros out. subst out. rewrite correct_text_web_eq.
  destruct (negb (model_loaded (service w))).
  { eexists. split; [reflexivity|]. split; [discriminate | reflexivity]. }
  destruct (correct_arabic_text_effects be text w) as [evs [Hw _]].
  destruct (CorrectionService.correct_arabic_text be text w) as [[corrected|e] w1];
    simpl in Hw; subst w1.
  - rewrite create_correction_eq. cbn [store service clock trace].
    destruct (fault (store w)); eexists; (split; [reflexivity|]); simpl.
    + split; [discriminate | reflexivity].
    + split; [reflexivity|]. eexists. repeat split; reflexivity.
  - eexists. split; [reflexivity|]. split; [discriminate | reflexivity].
Qed.

(** X8: the form route for deletion answers every id, positive or not,
    with a redirect to the history page with status 303 and never raises,
    whether a record was deleted, none had the id, or the store failed; the
    records with another id stay, in their order. *)
Theorem delete_correction_web_always_redirects (correction_id : Z) (w : World) :
  let out := WebRoutes.delete_correction_web correction_id w in
  fst out = Ok (WebRoutes.mkRedirect "/history" 303)
  /\ filter (fun r => negb (id r =? correction_id)%Z) (rows (store (snd out)))
     = filter (fun r => negb (id r =? correction_id)%Z) (rows (store w))
  /\ (fault (store w) = None ->
      rows (store (snd out))
      = filter (fun r => negb (id r =? correction_id)%Z) (rows (store w)))
  /\ (fault (store w) <> None -> snd out = w).
Proof.
  intros out. subst out.
  unfold WebRoutes.delete_correction_web, DatabaseService.delete_correction,
    try_except, bind.
  destruct (fault (store w)) as [e|] eqn:Hf.
  - rewrite (execute_fault _ _ w e Hf). simpl.
    repeat split; trivial. intros H. congruence.
  - rewrite (execute_ok _ _ w Hf). simpl.
    assert (Hff : forall l : list CorrectionInDB,
               filter (fun r => negb (id r =? correction_id)%Z)
                      (filter (fun r => negb (id r =? correction_id)%Z) l)
               = filter (fun r => negb (id r =? correction_id)%Z) l).
    { induction l as [|r l IH]; simpl; trivial.
      destruct (negb (id r =? correction_id)%Z) eqn:E; simpl; rewrite ?E, IH; reflexivity. }
    destruct (negb (0 <? List.length (filter (fun r => (id r =? correction_id)%Z)
                                              (rows (store w))))%nat);
      simpl; (split; [reflexivity|]); (split; [apply Hff|]); split; trivial; congruence.
Qed.

(** The unreachable store and a non-positive id: still the redirect. *)
Lemma delete_correction_web_always_redirects_witness :
  WebRoutes.delete_correction_web (-5) faulty_store_world
  = (Ok (WebRoutes.mkRedirect "/history" 303), faulty_store_world).
Proof.
  destruct (delete_correction_web_always_redirects (-5) faulty_store_world)
    as [Hr [_ [_ Hw]]].
  rewrite (surjective_pairing (WebRoutes.delete_correction_web (-5) faulty_store_world)).
  rewrite Hr, Hw; [reflexivity | discriminate].
Defined.

(** ** The persistence service: invariants and round trips *)

Lemma world_eta (w : World) :
  mkWorld (service w) (store w) (clock w) (trace w) = w.
Proof. now destruct w. Qed.

Lemma get_correction_by_id_eq (i : Z) (w : World) :
  DatabaseService.get_correction_by_id i w
  = match fault (store w) with
    | Some e => (Ok None, w)
    | None => (Ok (hd_error (filter (fun r => (id r =? i)%Z) (rows (store w)))), w)
    end.
Proof.
  unfold DatabaseService.get_correction_by_id, try_except, bind.
  destruct (fault (store w)) as [e|] eqn:Hf.
  - now rewrite (execute_fault _ _ w e Hf).
  - rewrite (execute_ok _ _ w Hf). simpl. now rewrite world_eta.
Qed.

Lemma delete_correction_eq (i : Z) (w : World) :
  DatabaseService.delete_correction i w
  = match fault (store w) with
    | Some e => (Ok false, w)
    | None =>
        (Ok (0 <? List.length (filter (fun r => (id r =? i)%Z) (rows (store w))))%nat,
         mkWorld (service w)
                 (mkStore (filter (fun r => negb (id r =? i)%Z) (rows (store w)))
                          (next_id (store w)) None)
                 (clock w) (trace w))
    end.
Proof.
  unfold DatabaseService.delete_correction, try_except, bind.
  destruct (fault (store w)) as [e|] eqn:Hf.
  - now rewrite (execute_fault _ _ w e Hf).
  - rewrite (execute_ok _ _ w Hf). simpl. now rewrite Hf.
Qed.

Lemma get_all_corrections_eq (w : World) :
  DatabaseService.get_all_corrections w
  = match fault (store w) with
    | Some e => (Raise e, w)
    | None => (Ok (Supabase.order Supabase.col_created_at true (rows (store w))), w)
    end.
Proof.
  unfold DatabaseService.get_all_corrections, try_except.
  destruct (fault (store w)) as [e|] eqn:Hf.
  - now rewrite (execute_fault _ _ w e Hf).
  - rewrite (execute_ok _ _ w Hf). simpl. now rewrite world_eta.
Qed.

Lemma store_ok_insert (st : Store) (original corrected : str) (created : Z) :
  store_ok st -> store_ok (snd (Supabase.insert original corrected created st)).
Proof.
  intros [Hnd Hlt]. unfold store_ok. simpl. split.
  - rewrite map_app. simpl. apply NoDup_app; trivial.
    + repeat constructor. intros [].
    + intros x Hin [<-|[]]. apply in_map_iff in Hin. destruct Hin as [r [Hr Hin]].
      rewrite Forall_forall in Hlt. specialize (Hlt r Hin). lia.
  - apply Forall_app. split.
    + eapply Forall_impl; [|exact Hlt]. simpl. intros. lia.
    + repeat constructor. simpl. lia.
Qed.

Lemma sample_store_ok : store_ok (store sample_store_world).
Proof.
  split; simpl.
  - repeat constructor; simpl; intuition discriminate.
  - repeat constructor; simpl; lia.
Qed.

Lemma filter_id_none (i : Z) (l : list CorrectionInDB) :
  ~ In i (map id l) -> filter (fun r => (id r =? i)%Z) l = [].
Proof.
  induction l as [|a l IH]; simpl; intros H; trivial.
  destruct (Z.eqb_spec (id a) i) as [E|E]; [tauto|]. apply IH. tauto.
Qed.

Lemma filter_id_unique (r : CorrectionInDB) (l : list CorrectionInDB) :
  NoDup (map id l) -> In r l -> filter (fun x => (id x =? id r)%Z) l = [r].
Proof.
  induction l as [|a l IH]; simpl; intros Hnd Hin; [destruct Hin|].
  inversion Hnd as [|? ? Hnin Hnd']; subst.
  destruct Hin as [->|Hin].
  - rewrite Z.eqb_refl. f_equal. now apply filter_id_none.
  - destruct (Z.eqb_spec (id a) (id r)) as [E|E]; [|now apply IH].
    exfalso. apply Hnin. rewrite E. now apply in_map.
Qed.

(** X9: on a reachable store with distinct identifiers below the next one,
    a created correction is found again under the identifier the store gave
    it, appears in the listing, which grows by one record, and leaves every
    earlier record retrievable under its own identifier. *)
Theorem create_then_lookup (c : CorrectionCreate) (w : World) :
  fault (store w) = None -> store_ok (store w) ->
  exists row w1,
    DatabaseService.create_correction c w = (Ok row, w1)
    /\ original_text row = create_original_text c
    /\ corrected_text row = create_corrected_text c
    /\ DatabaseService.get_correction_by_id (id row) w1 = (Ok (Some row), w1)
    /\ (exists l, DatabaseService.get_all_corrections w1 = (Ok l, w1)
                  /\ In row l
                  /\ List.length l = S (List.length (rows (store w))))
    /\ (forall r, In r (rows (store w)) ->
                  DatabaseService.get_correction_by_id (id r) w1 = (Ok (Some r), w1)).
Proof.
  intros Hf Hok. rewrite create_correction_eq, Hf. cbv zeta.
  set (row := mkRow (next_id (store w)) (create_original_text c)
                    (create_corrected_text c) (clock w)).
  exists row. eexists. split; [reflexivity|]. split; [reflexivity|]. split; [reflexivity|].
  pose proof (store_ok_insert (store w) (create_original_text c)
                (create_corrected_text c) (clock w) Hok) as [Hnd' _].
  simpl in Hnd'. fold row in Hnd'.
  split; [|split].
  - rewrite get_correction_by_id_eq. cbn [store fault rows].
    rewrite (filter_id_unique row _ Hnd'); [reflexivity|].
    apply in_or_app. right. now left.
  - rewrite get_all_corrections_eq. cbn [store fault rows].
    eexists. split; [reflexivity|]. split.
    + eapply Permutation_in; [apply order_perm|]. apply in_or_app. right. now left.
    + rewrite <- (Permutation_length (order_perm Supabase.col_created_at true _)).
      rewrite length_app. simpl. lia.
  - intros r Hr. rewrite get_correction_by_id_eq. cbn [store fault rows].
    rewrite (filter_id_unique r _ Hnd'); [reflexivity|].
    apply in_or_app. now left.
Qed.

(** A fourth record in the sample store gets the identifier 4 and is found
    under it. *)
Lemma create_then_lookup_witness :
  exists row w1,
    DatabaseService.create_correction (mkCreate (lit "d") (lit "D")) sample_store_world
    = (Ok row, w1)
    /\ id row = 4%Z
    /\ DatabaseService.get_correction_by_id 4 w1 = (Ok (Some row), w1).
Proof.
  destruct (create_then_lookup (mkCreate (lit "d") (lit "D")) sample_store_world
              eq_refl sample_store_ok) as [row [w1 [Hc [_ [_ [Hg _]]]]]].
  exists row, w1. split; [exact Hc|].
  assert (Hid : id row = 4%Z) by (vm_compute in Hc; now injection Hc as <- _).
  split; [exact Hid|]. now rewrite <- Hid.
Defined.

(** X10: after a deletion on a reachable store no record is found under the
    deleted identifier, the listing holds exactly the records that had
    another identifier, and deleting the same identifier again reports
    [False]. *)
Theorem delete_then_lookup (i : Z) (w : World) :
  fault (store w) = None ->
  let w1 := snd (DatabaseService.delete_correction i w) in
  DatabaseService.get_correction_by_id i w1 = (Ok None, w1)
  /\ (exists l, DatabaseService.get_all_corrections w1 = (Ok l, w1)
                /\ forall r, In r l <-> In r (rows (store w)) /\ id r <> i)
  /\ fst (DatabaseService.delete_correction i w1) = Ok false.
Proof.
  intros Hf w1. subst w1. rewrite delete_correction_eq, Hf. cbn [snd].
  assert (Hnone : filter (fun r => (id r =? i)%Z)
                         (filter (fun r => negb (id r =? i)%Z) (rows (store w))) = []).
  { induction (rows (store w)) as [|a l IH]; simpl; trivial.
    destruct (id a =? i)%Z eqn:E; simpl; [trivial|]. now rewrite E. }
  split; [|split].
  - rewrite get_correction_by_id_eq. simpl. now rewrite Hnone.
  - rewrite get_all_corrections_eq. simpl. eexists. split; [reflexivity|].
    intros r. split.
    + intros Hin. apply (Permutation_in _ (Permutation_sym (order_perm _ _ _))) in Hin.
      apply filter_In in Hin. destruct Hin as [Hin Hid]. split; trivial.
      apply negb_true_iff in Hid. now apply Z.eqb_neq.
    + intros [Hin Hid]. eapply Permutation_in; [apply order_perm|].
      apply filter_In. split; trivial. apply negb_true_iff. now apply Z.eqb_neq.
  - rewrite delete_correction_eq. simpl. now rewrite Hnone.
Qed.

(** Deleting record 2 of the sample store leaves records 3 and 1 listed. *)
Lemma delete_then_lookup_witness :
  exists l,
    fst (DatabaseService.get_all_corrections
           (snd (DatabaseService.delete_correction 2 sample_store_world))) = Ok l
    /\ forall r, In r l <-> In r sample_rows /\ id r <> 2%Z.
Proof.
  destruct (delete_then_lookup 2 sample_store_world eq_refl) as [_ [[l [Hl Hin]] _]].
  exists l. split; [now rewrite Hl | exact Hin].
Defined.

(** X11: looking a correction up by identifier never raises and changes
    nothing.  The answer is a stored record with that identifier, or [None]
    when there is none or when the store fails; with distinct identifiers
    every stored record is the answer for its own identifier. *)
Theorem get_correction_by_id_answers (i : Z) (w : World) :
  exists answer,
    DatabaseService.get_correction_by_id i w = (Ok answer, w)
    /\ (forall r, answer = Some r -> In r (rows (store w)) /\ id r = i)
    /\ (answer = None <->
        fault (store w) <> None \/ ~ In i (map id (rows (store w))))
    /\ (fault (store w) = None -> NoDup (map id (rows (store w))) ->
        forall r, In r (rows (store w)) -> id r = i -> answer = Some r).
Proof.
  rewrite get_correction_by_id_eq.
  destruct (fault (store w)) as [e|] eqn:Hf.
  - exists None. split; [reflexivity|]. split; [discriminate|]. split.
    + split; [intros _; left; discriminate | reflexivity].
    + discriminate.
  - eexists. split; [reflexivity|].
    destruct (filter (fun r => (id r =? i)%Z) (rows (store w))) as [|a l] eqn:E; simpl.
    + split; [discriminate|]. split.
      * split; [|reflexivity]. intros _. right. intros Hin.
        apply in_map_iff in Hin. destruct Hin as [r [Hr Hin]].
        assert (H : In r (filter (fun r => (id r =? i)%Z) (rows (store w))))
          by (apply filter_In; split; trivial; now apply Z.eqb_eq).
        rewrite E in H. destruct H.
      * intros _ Hnd r Hin <-. rewrite (filter_id_unique r _ Hnd Hin) in E. discriminate.
    + assert (Ha : In a (filter (fun r => (id r =? i)%Z) (rows (store w))))
        by (rewrite E; now left).
      apply filter_In in Ha. destruct Ha as [Ha Hid]. apply Z.eqb_eq in Hid.
      split; [now intros r [= <-]|]. split.
      * split; [discriminate|]. intros [H|H]; [congruence|].
        exfalso. apply H. rewrite <- Hid. now apply in_map.
      * intros _ Hnd r Hin <-. rewrite (filter_id_unique r _ Hnd Hin) in E.
        now injection E as <- _.
Qed.

(** Record 3 of the sample store is found; on the unreachable store the
    answer is [None]. *)
Lemma get_correction_by_id_answers_witness :
  fst (DatabaseService.get_correction_by_id 3 sample_store_world)
  = Ok (Some (mkRow 3 (lit "c") (lit "C") 10))
  /\ fst (DatabaseService.get_correction_by_id 3 faulty_store_world) = Ok None.
Proof.
  split.
  - destruct (get_correction_by_id_answers 3 sample_store_world) as [a [Ha [_ [_ Hu]]]].
    rewrite Ha. simpl. f_equal. apply Hu; trivial.
    + apply sample_store_ok.
    + simpl. tauto.
  - destruct (get_correction_by_id_answers 3 faulty_store_world) as [a [Ha [_ [Hn _]]]].
    rewrite Ha. simpl. f_equal. apply Hn. left. discriminate.
Defined.

(** ** The correction route from end to end *)

Lemma parse_accepts (raw : str) :
  (1 <= List.length raw <= 5000)%nat -> strip raw <> [] ->
  parse_TextCorrectionRequest raw = Ok (mkRequest (strip raw)).
Proof.
  intros [H1 H2] Hs. unfold parse_TextCorrectionRequest, validate_text.
  replace (List.length raw <? 1)%nat with false by (symmetry; apply Nat.ltb_ge; lia).
  replace (5000 <? List.length raw)%nat with false by (symmetry; apply Nat.ltb_ge; lia).
  apply eqb_neq in Hs. rewrite Hs, orb_false_r.
  destruct (PyStr.eqb raw []) eqn:E; [|reflexivity].
  apply eqb_eq in E. subst raw. simpl in H1. lia.
Qed.

Lemma fallback_tier_nonempty (be : Backend) (text prompt s : str) (w : World) :
  text <> [] -> fst (fallback_tier be text prompt w) = Ok s -> s <> [].
Proof.
  intros Ht. unfold fallback_tier.
  destruct (load_pipeline be cpu) as [[]|e].
  - destruct (run_pipeline be cpu prompt CorrectionService.fallback_args) as [full|e].
    + destruct (PyStr.eqb (extracted full) []) eqn:E; simpl; intros [= <-]; trivial.
      now apply eqb_neq.
    + destruct (isinstance_RuntimeError e); simpl; [now intros [= <-] | discriminate].
  - destruct (isinstance_RuntimeError e); simpl; [now intros [= <-] | discriminate].
Qed.

(** A returned correction is never the empty string, for a non-empty text. *)
Lemma two_tiers_nonempty (be : Backend) (tok : Tokenizer) (p : Pipeline)
      (text s : str) (w : World) :
  text <> [] -> fst (two_tiers be tok p text w) = Ok s -> s <> [].
Proof.
  intros Ht. unfold two_tiers.
  destruct (run_pipeline be (pipe_device p) (prompt_of text)
              (CorrectionService.primary_args tok)) as [full|e].
  - destruct (PyStr.eqb (extracted full) []) eqn:E1; [now apply fallback_tier_nonempty|].
    destruct (PyStr.eqb (extracted full) (strip text)); [now apply fallback_tier_nonempty|].
    simpl. intros [= <-]. now apply eqb_neq.
  - destruct (isinstance_RuntimeError e); [now apply fallback_tier_nonempty | discriminate].
Qed.

Lemma two_tiers_runtime_only (be : Backend) (tok : Tokenizer) (p : Pipeline)
      (text : str) (w : World) :
  runtime_failures_only be -> exists s, fst (two_tiers be tok p text w) = Ok s.
Proof.
  intros Hrt. unfold two_tiers.
  set (w1 := with_event w _).
  destruct (fallback_tier_runtime_only be text (prompt_of text) w1 Hrt) as [s [Hs _]].
  destruct (run_pipeline be (pipe_device p) (prompt_of text)
              (CorrectionService.primary_args tok)) as [full|e] eqn:Hp.
  - destruct (PyStr.eqb (extracted full) []); [now exists s|].
    destruct (PyStr.eqb (extracted full) (strip text)); [now exists s|].
    now eexists.
  - destruct Hrt as [_ Hrun]. rewrite (Hrun _ _ _ _ Hp). now exists s.
Qed.

(** X12: with the model loaded, the store reachable and a runtime whose
    failures are all runtime failures, a submitted text of 1 to 5000
    characters that is not all whitespace is answered with status 200: the
    response carries the identifier and creation time the store assigned,
    the stripped text and a non-empty correction, and exactly that record is
    appended to the table. *)
Theorem post_gec_correct_succeeds (be : Backend) (raw : str) (w : World) :
  loaded w -> fault (store w) = None -> runtime_failures_only be ->
  (1 <= List.length raw <= 5000)%nat -> strip raw <> [] ->
  exists resp w',
    ApiRoutes.post_gec_correct be raw w = (Ok resp, w')
    /\ http_status 200 (fst (ApiRoutes.post_gec_correct be raw w)) = 200%Z
    /\ resp_id resp = Some (next_id (store w))
    /\ resp_original_text resp = strip raw
    /\ resp_corrected_text resp <> []
    /\ resp_timestamp resp = clock w
    /\ rows (store w')
       = rows (store w)
         ++ [mkRow (next_id (store w)) (strip raw) (resp_corrected_text resp) (clock w)].
Proof.
  intros Hl Hf Hrt Hlen Hs.
  unfold ApiRoutes.post_gec_correct. rewrite (parse_accepts raw Hlen Hs).
  rewrite correct_text_eq. cbn [text].
  destruct (loaded_service_shape w Hl) as [tok [p Hsvc]].
  rewrite Hsvc. cbn [pipe tokenizer is_None option_PyObject orb].
  destruct (correct_arabic_text_effects be (strip raw) w) as [evs [Hw _]].
  rewrite (correct_arabic_text_two_tiers be tok p (strip raw) w Hsvc) in *.
  destruct (two_tiers_runtime_only be tok p (strip raw) w Hrt) as [s Hok].
  pose proof (two_tiers_nonempty be tok p (strip raw) s w Hs Hok) as Hne.
  destruct (two_tiers be tok p (strip raw) w) as [r w1]. simpl in Hok, Hw. subst r w1.
  rewrite create_correction_eq. cbn [store fault clock service trace rows next_id].
  rewrite Hf. cbv zeta. eexists. eexists. split; [reflexivity|].
  simpl. repeat split; trivial.
Qed.

(** The padded text [" hi "] on the loaded sample service gets identifier 1. *)
Lemma post_gec_correct_succeeds_witness :
  exists resp w',
    ApiRoutes.post_gec_correct (completing_backend (lit "HELLO<end_of_turn>"))
      (lit " hi ") loaded_world = (Ok resp, w')
    /\ resp_id resp = Some 1%Z.
Proof.
  destruct (post_gec_correct_succeeds (completing_backend (lit "HELLO<end_of_turn>"))
              (lit " hi ") loaded_world) as [resp [w' [H [_ [Hid _]]]]].
  - unfold loaded. simpl. repeat split; discriminate.
  - reflexivity.
  - split; simpl; intros; discriminate.
  - simpl. lia.
  - vm_compute. discriminate.
  - exists resp, w'. split; [exact H | exact Hid].
Defined.

(** X13: the correction route answers 422 exactly when the request model
    rejects the submitted text, and then changes nothing and calls neither
    the runtime nor the store; every other answer is 200 or 500. *)
Theorem post_gec_correct_statuses (be : Backend) (raw : str) (w : World) :
  let out := ApiRoutes.post_gec_correct be raw w in
  let status := http_status 200 (fst out) in
  (status = 422%Z <->
   ~ ((1 <= List.length raw <= 5000)%nat /\ strip raw <> []))
  /\ (status = 422%Z -> snd out = w)
  /\ (status = 200%Z \/ status = 422%Z \/ status = 500%Z).
Proof.
  intros out status. subst status out. unfold ApiRoutes.post_gec_correct.
  destruct (parse_TextCorrectionRequest raw) as [request|e] eqn:Hp.
  - assert (Hacc : (1 <= List.length raw <= 5000)%nat /\ strip raw <> []).
    { revert Hp. unfold parse_TextCorrectionRequest, validate_text.
      destruct (List.length raw <? 1)%nat eqn:H1; [discriminate|].
      destruct (5000 <? List.length raw)%nat eqn:H2; [discriminate|].
      apply Nat.ltb_ge in H1, H2.
      destruct (PyStr.eqb raw [] || PyStr.eqb (strip raw) []) eqn:E; [discriminate|].
      apply orb_false_iff in E. destruct E as [_ E]. apply eqb_neq in E.
      intros _. split; [lia | exact E]. }
    rewrite correct_text_eq.
    assert (H : forall x : result TextCorrectionResponse * World,
               (exists resp, fst x = Ok resp)
               \/ fst x = Raise (HTTPException 500 "Internal server error") ->
               (http_status 200 (fst x) = 422%Z <-> ~ ((1 <= List.length raw <= 5000)%nat
                                                     /\ strip raw <> []))
               /\ (http_status 200 (fst x) = 422%Z -> snd x = w)
               /\ (http_status 200 (fst x) = 200%Z \/ http_status 200 (fst x) = 422%Z
                   \/ http_status 200 (fst x) = 500%Z)).
    { intros x [[resp ->]| ->]; simpl; (split; [split; [discriminate|tauto]|]);
        (split; [discriminate|]); auto. }
    apply H.
    destruct (is_None (pipe (service w)) || is_None (tokenizer (service w))); [now right|].
    destruct (CorrectionService.correct_arabic_text be (text request) w)
      as [[corrected|e] w1]; [|now right].
    destruct (DatabaseService.create_correction (mkCreate (text request) corrected) w1)
      as [[row|e] w2]; [left; now eexists | now right].
  - assert (He : exists msg, e = ValidationError msg).
    { revert Hp. unfold parse_TextCorrectionRequest, validate_text.
      destruct (List.length raw <? 1)%nat; [intros [= <-]; now eexists|].
      destruct (5000 <? List.length raw)%nat; [intros [= <-]; now eexists|].
      destruct (PyStr.eqb raw [] || PyStr.eqb (strip raw) []);
        [intros [= <-]; now eexists | discriminate]. }
    destruct He as [msg ->]. simpl. split; [|split; auto].
    split; [|reflexivity]. intros _ [Hlen Hs].
    rewrite (parse_accepts raw Hlen Hs) in Hp. discriminate.
Qed.

(** A text of spaces only is answered with 422. *)
Lemma post_gec_correct_statuses_witness :
  http_status 200
    (fst (ApiRoutes.post_gec_correct (completing_backend (lit "ok")) (lit "   ") loaded_world))
  = 422%Z.
Proof.
  apply (post_gec_correct_statuses (completing_backend (lit "ok")) (lit "   ") loaded_world).
  intros [_ H]. apply H. reflexivity.
Defined.

(** ** The standalone script *)

Lemma script_two_tiers (be : Backend) (tok : Tokenizer) (p : Pipeline)
      (text : str) (w : World) :
  Script.correct_arabic_text be tok p text w = two_tiers be tok p text w.
Proof.
  unfold Script.correct_arabic_text, two_tiers.
  unfold try_except at 1, bind at 1.
  unfold CorrectionService.primary_attempt, try_except at 1, bind at 1.
  unfold CorrectionService.call_pipeline, bind at 1, log, lift.
  fold (prompt_of text).
  destruct (run_pipeline be (pipe_device p) (prompt_of text)
              (CorrectionService.primary_args tok)) as [full|e]; cbn -[prompt_of].
  - fold (extracted full).
    destruct (PyStr.eqb (extracted full) []); cbn -[prompt_of].
    + fallback_cases be text.
    + destruct (PyStr.eqb (extracted full) (strip text)); cbn -[prompt_of]; trivial.
      fallback_cases be text.
  - destruct (isinstance_RuntimeError e) eqn:He; cbn -[prompt_of].
    + fallback_cases be text.
    + now rewrite He.
Qed.

(** X14: the two copies of [correct_arabic_text] agree: on a loaded
    service the method of the service returns, and records, what the
    module-level function of the script does with the same tokenizer and
    pipeline.  On a service that is not loaded the method raises
    [ValueError] without calling the runtime, where the script's function,
    having no guard, still generates. *)
Theorem script_and_service_agree (be : Backend) (tok : Tokenizer) (p : Pipeline)
        (text : str) (w : World) :
  (service w = mkService (Some tok) (Some p) true ->
   CorrectionService.correct_arabic_text be text w
   = Script.correct_arabic_text be tok p text w)
  /\ (~ loaded w ->
      CorrectionService.correct_arabic_text be text w
      = (Raise (ValueError "Model not loaded"), w)
      /\ trace (snd (Script.correct_arabic_text be tok p text w)) <> trace w).
Proof.
  split.
  - intros Hs. now rewrite script_two_tiers, (correct_arabic_text_two_tiers be tok p text w Hs).
  - intros Hn. split.
    + destruct (correct_arabic_text_guard be text w) as [[tok' [p' Hs]]|H]; trivial.
      exfalso. apply Hn. unfold loaded. rewrite Hs. simpl. repeat split; discriminate.
    + rewrite script_two_tiers. unfold two_tiers. intros H.
      apply (f_equal (@List.length Event)) in H. revert H.
      assert (Hfb : forall w1, (List.length (trace w1)
                                <= List.length (trace (snd (fallback_tier be text
                                                              (prompt_of text) w1))))%nat).
      { intros w1. unfold fallback_tier.
        destruct (load_pipeline be cpu) as [[]|e1];
          [destruct (run_pipeline be cpu (prompt_of text) CorrectionService.fallback_args)
             as [f2|e2]; [|destruct (isinstance_RuntimeError e2)]
          |destruct (isinstance_RuntimeError e1)];
          simpl; rewrite ?length_app; simpl; lia. }
      set (w1 := with_event w _). specialize (Hfb w1).
      assert (Hw1 : List.length (trace w1) = S (List.length (trace w)))
        by (unfold w1; simpl; rewrite length_app; simpl; lia).
      destruct (run_pipeline be (pipe_device p) (prompt_of text)
                  (CorrectionService.primary_args tok)) as [full|e];
        [destruct (PyStr.eqb (extracted full) []);
         [|destruct (PyStr.eqb (extracted full) (strip text))]
        |destruct (isinstance_RuntimeError e)]; intros H; cbn [snd] in H; lia.
Qed.

(** On the loaded sample service both copies return [HELLO]. *)
Lemma script_and_service_agree_witness :
  CorrectionService.correct_arabic_text (completing_backend (lit "HELLO")) (lit "hi")
    loaded_world
  = Script.correct_arabic_text (completing_backend (lit "HELLO")) sample_tokenizer
      (mkPipeline cuda) (lit "hi") loaded_world.
Proof.
  apply (script_and_service_agree (completing_backend (lit "HELLO")) sample_tokenizer
           (mkPipeline cuda) (lit "hi") loaded_world).
  reflexivity.
Defined.

Section DeleteLoop.

Variable text_id : Z.

Local Abbreviation keeps := (fun x : Script.Output => negb (Script.out_id x =? text_id)%Z).

Lemma Output_eqb_refl (x : Script.Output) : Script.Output_eqb x x = true.
Proof.
  unfold Script.Output_eqb. rewrite Z.eqb_refl.
  now rewrite !(proj2 (eqb_eq _ _) eq_refl).
Qed.

Lemma Output_eqb_id (x y : Script.Output) :
  Script.Output_eqb x y = true -> Script.out_id x = Script.out_id y.
Proof.
  unfold Script.Output_eqb. intros H.
  apply andb_true_iff in H. destruct H as [H _].
  apply andb_true_iff in H. destruct H as [H _]. now apply Z.eqb_eq.
Qed.

(** With distinct identifiers, [remove] takes out the element the
    iterator is looking at. *)
Lemma remove_first_at (l : list Script.Output) (i : nat) (output : Script.Output) :
  NoDup (map Script.out_id l) -> nth_error l i = Some output ->
  Script.remove_first output l = firstn i l ++ skipn (S i) l.
Proof.
  revert i. induction l as [|y t IH]; intros [|i] Hnd Hn; simpl in *; try discriminate.
  - injection Hn as ->. now rewrite Output_eqb_refl.
  - inversion Hnd as [|? ? Hnin Hnd']; subst.
    destruct (Script.Output_eqb y output) eqn:E.
    + exfalso. apply Hnin. rewrite (Output_eqb_id _ _ E).
      apply in_map. eapply nth_error_In; eassumption.
    + f_equal. now apply IH.
Qed.

Lemma filter_keeps_all (l : list Script.Output) :
  ~ In text_id (map Script.out_id l) -> filter keeps l = l.
Proof.
  induction l as [|y t IH]; simpl; intros H; trivial.
  destruct (Z.eqb_spec (Script.out_id y) text_id) as [E|E]; simpl; [tauto|].
  f_equal. apply IH. tauto.
Qed.

Lemma NoDup_split_id (l : list Script.Output) (i : nat) (output : Script.Output) :
  NoDup (map Script.out_id l) -> nth_error l i = Some output ->
  l = firstn i l ++ output :: skipn (S i) l
  /\ ~ In (Script.out_id output) (map Script.out_id (firstn i l ++ skipn (S i) l))
  /\ NoDup (map Script.out_id (firstn i l ++ skipn (S i) l)).
Proof.
  intros Hnd Hn.
  assert (Hl : l = firstn i l ++ output :: skipn (S i) l).
  { revert i Hn. clear Hnd. induction l as [|y t IH]; intros [|i] Hn; simpl in *;
      try discriminate.
    - now injection Hn as ->.
    - f_equal. now apply IH. }
  split; [exact Hl|].
  rewrite Hl in Hnd. rewrite map_app in Hnd. simpl in Hnd.
  pose proof (NoDup_remove _ _ _ Hnd) as [H1 H2].
  rewrite map_app. now split.
Qed.

Lemma firstn_succ (A : Type) (l : list A) (i : nat) (x : A) :
  nth_error l i = Some x -> firstn (S i) l = firstn i l ++ [x].
Proof.
  revert i. induction l as [|y t IH]; intros [|i] H; simpl in *; try discriminate.
  - now injection H as ->.
  - f_equal. now apply IH.
Qed.

Lemma in_firstn (A : Type) (l : list A) (n : nat) (x : A) :
  In x (firstn n l) -> In x l.
Proof.
  intros H. rewrite <- (firstn_skipn n l). apply in_or_app. now left.
Qed.

Lemma delete_loop_spec (fuel index : nat) (st : Script.App) :
  NoDup (map Script.out_id (Script.OUTPUTS st)) ->
  ~ In text_id (map Script.out_id (firstn index (Script.OUTPUTS st))) ->
  (List.length (Script.OUTPUTS st) <= index + fuel)%nat ->
  let st' := Script.delete_loop fuel text_id index st in
  Script.OUTPUTS st' = filter keeps (Script.OUTPUTS st)
  /\ (In text_id (map Script.out_id (Script.OUTPUTS st)) ->
      Script.outputs_json st' = Script.OUTPUTS st')
  /\ (~ In text_id (map Script.out_id (Script.OUTPUTS st)) -> st' = st)
  /\ Script.app_pipe st' = Script.app_pipe st
  /\ Script.app_tokenizer st' = Script.app_tokenizer st.
Proof.
  revert index st. induction fuel as [|f IH]; intros index st Hnd Hpre Hlen.
  - cbn [Script.delete_loop]. cbv zeta.
    rewrite firstn_all2 in Hpre by lia.
    rewrite (filter_keeps_all _ Hpre). repeat split; trivial. tauto.
  - cbn [Script.delete_loop].
    destruct (nth_error (Script.OUTPUTS st) index) as [output|] eqn:Hn.
    2:{ apply nth_error_None in Hn. rewrite firstn_all2 in Hpre by lia. cbv zeta.
        rewrite (filter_keeps_all _ Hpre). repeat split; trivial. tauto. }
    destruct (NoDup_split_id _ _ _ Hnd Hn) as [Hl [Hnin Hnd']].
    destruct (Z.eqb_spec (Script.out_id output) text_id) as [E|E].
    + rewrite (remove_first_at _ _ _ Hnd Hn).
      set (l' := firstn index (Script.OUTPUTS st) ++ skipn (S index) (Script.OUTPUTS st)).
      fold l' in Hnin, Hnd'. rewrite E in Hnin.
      set (st1 := Script.update_json_file (Script.set_OUTPUTS l' st)).
      assert (Hgone : Script.delete_loop f text_id (S index) st1 = st1).
      { destruct (IH (S index) st1) as [_ [_ [Hsame _]]];
          cbn [st1 Script.OUTPUTS Script.update_json_file Script.set_OUTPUTS]; trivial.
        - intros H. apply Hnin. apply in_map_iff in H. destruct H as [x [Hx H]].
          apply in_firstn in H. apply in_map_iff. now exists x.
        - pose proof (f_equal (@List.length Script.Output) Hl) as Hlen'.
          rewrite length_app in Hlen'. cbn [List.length] in Hlen'.
          unfold l'. rewrite length_app. lia.
        - now apply Hsame. }
      cbv zeta. rewrite Hgone.
      assert (Hf : filter keeps (Script.OUTPUTS st) = l').
      { rewrite Hl at 1. rewrite filter_app. cbn [filter]. rewrite E, Z.eqb_refl. simpl.
        rewrite <- filter_app. now apply filter_keeps_all. }
      simpl. rewrite Hf. repeat split; trivial.
      intros H. exfalso. apply H. rewrite Hl, map_app. apply in_or_app. right. now left.
    + apply (IH (S index) st); trivial; [|lia].
      rewrite (firstn_succ _ _ _ _ Hn), map_app.
      intros H. apply in_app_or in H. destruct H as [H|[H|[]]]; auto.
Qed.

End DeleteLoop.

(** X15: when the identifiers in [OUTPUTS] are pairwise distinct,
    [delete_book] with a positive identifier removes exactly the record that
    has it, keeps the others in their order and rewrites the file to match;
    when no record has the identifier it changes nothing, neither list nor
    file, and still answers normally: the script never reports a missing
    record. *)
Theorem delete_book_removes_the_record (text_id : Z) (st : Script.App) :
  (0 < text_id)%Z -> NoDup (map Script.out_id (Script.OUTPUTS st)) ->
  let out := Script.delete_book text_id st in
  fst out = Ok tt
  /\ Script.OUTPUTS (snd out)
     = filter (fun x => negb (Script.out_id x =? text_id)%Z) (Script.OUTPUTS st)
  /\ (In text_id (map Script.out_id (Script.OUTPUTS st)) ->
      Script.outputs_json (snd out) = Script.OUTPUTS (snd out))
  /\ (~ In text_id (map Script.out_id (Script.OUTPUTS st)) -> snd out = st).
Proof.
  intros Hpos Hnd out. subst out. unfold Script.delete_book.
  replace (text_id <=? 0)%Z with false by (symmetry; apply Z.leb_gt; lia).
  cbn [fst snd]. split; [reflexivity|].
  destruct (delete_loop_spec text_id (List.length (Script.OUTPUTS st)) 0 st Hnd)
    as [H1 [H2 [H3 _]]]; [simpl; tauto | lia |].
  auto.
Qed.

(** Three records with identifiers 1, 2, 3: deleting 2 leaves 1 and 3. *)
Lemma delete_book_removes_the_record_witness :
  map Script.out_id
      (Script.OUTPUTS
         (snd (Script.delete_book 2
                 (Script.mkApp None None
                    [Script.mkOutput 1 (lit "a") (lit "A");
                     Script.mkOutput 2 (lit "b") (lit "B");
                     Script.mkOutput 3 (lit "c") (lit "C")] [] 0))))
  = [1; 3]%Z.
Proof.
  destruct (delete_book_removes_the_record 2
              (Script.mkApp None None
                 [Script.mkOutput 1 (lit "a") (lit "A");
                  Script.mkOutput 2 (lit "b") (lit "B");
                  Script.mkOutput 3 (lit "c") (lit "C")] [] 0)) as [_ [H _]].
  - lia.
  - simpl. repeat constructor; simpl; intuition discriminate.
  - rewrite H. reflexivity.
Defined.

Section Increasing.

Local Abbreviation id_lt :=
  (fun a b : Script.Output => (Script.out_id a < Script.out_id b)%Z).

Lemma ids_increasing_NoDup (l : list Script.Output) :
  ids_increasing l -> NoDup (map Script.out_id l).
Proof.
  induction 1 as [|a l Hs IH Hall]; simpl; constructor; trivial.
  intros Hin. apply in_map_iff in Hin. destruct Hin as [x [Hx Hin]].
  rewrite Forall_forall in Hall. specialize (Hall x Hin). simpl in Hall. lia.
Qed.

Lemma ids_increasing_filter (f : Script.Output -> bool) (l : list Script.Output) :
  ids_increasing l -> ids_increasing (filter f l).
Proof.
  induction 1 as [|a l Hs IH Hall]; simpl; [constructor|].
  destruct (f a); trivial. constructor; trivial.
  rewrite Forall_forall in *. intros x Hx. apply filter_In in Hx. now apply Hall.
Qed.

Lemma ids_increasing_snoc (l : list Script.Output) (x : Script.Output) :
  ids_increasing l -> Forall (fun a => id_lt a x) l -> ids_increasing (l ++ [x]).
Proof.
  induction 1 as [|a l Hs IH Hall]; simpl; intros Hx.
  - repeat constructor.
  - inversion Hx; subst. constructor; [now apply IH|].
    apply Forall_app. split; trivial. now repeat constructor.
Qed.

Lemma last_id_bounds (l : list Script.Output) (last : Z) :
  ids_increasing l -> Script.last_id l = Ok last ->
  Forall (fun a => (Script.out_id a <= last)%Z) l.
Proof.
  unfold Script.last_id. intros Hs Hl.
  destruct (rev l) as [|o t] eqn:E; [discriminate|]. injection Hl as <-.
  assert (Hl : l = rev t ++ [o]).
  { rewrite <- (rev_involutive l), E. reflexivity. }
  rewrite Hl in *. clear E Hl. induction (rev t) as [|a u IH]; simpl in *.
  - repeat constructor. lia.
  - inversion Hs as [|? ? Hs' Hall]; subst. constructor; [|now apply IH].
    rewrite Forall_forall in Hall. specialize (Hall o).
    assert (Hin : In o (u ++ [o])) by (apply in_or_app; right; now left).
    specialize (Hall Hin). simpl in Hall. lia.
Qed.

End Increasing.

Lemma script_correct_text_eq (be : Backend) (tok : Tokenizer) (p : Pipeline)
      (request : TextCorrectionRequest) (st : Script.App) :
  Script.correct_text be tok p request st
  = if is_None (Script.app_pipe st) || is_None (Script.app_tokenizer st)
    then (Raise (HTTPException 500 "Internal server error"), st)
    else
      match Script.infer be tok p (text request) with
      | Raise e => (Raise (HTTPException 500 "Internal server error"), st)
      | Ok corrected =>
          let st1 := Script.mkApp (Script.app_pipe st) (Script.app_tokenizer st)
                                  (Script.OUTPUTS st) (Script.outputs_json st)
                                  (Script.app_clock st + 1)%Z in
          match Script.last_id (Script.OUTPUTS st) with
          | Raise e => (Raise (HTTPException 500 "Internal server error"), st1)
          | Ok last =>
              let l := Script.OUTPUTS st
                       ++ [Script.mkOutput (last + 1)%Z (text request) corrected] in
              (Ok (Script.mkScriptResponse (text request) corrected (Script.app_clock st)),
               Script.mkApp (Script.app_pipe st) (Script.app_tokenizer st) l l
                            (Script.app_clock st + 1)%Z)
          end
      end.
Proof.
  unfold Script.correct_text, Script.correct_text_body.
  destruct (is_None (Script.app_pipe st) || is_None (Script.app_tokenizer st));
    [reflexivity|].
  destruct (Script.infer be tok p (text request)) as [corrected|e]; [|reflexivity].
  cbn [Script.OUTPUTS]. now destruct (Script.last_id (Script.OUTPUTS st)).
Qed.

(** X16: the script's correction handler never answers 503, and while
    [OUTPUTS] is empty it answers every request with status 500, after
    inference, and stores nothing, so an empty list stays empty.  When it
    answers normally the list was non-empty, one record was appended whose
    identifier is the last identifier plus one and whose texts are those of
    the response, and the file equals the list. *)
Theorem script_correct_text_outcomes (be : Backend) (tok : Tokenizer) (p : Pipeline)
        (request : TextCorrectionRequest) (st : Script.App) :
  let out := Script.correct_text be tok p request st in
  http_status 200 (fst out) <> 503%Z
  /\ (Script.OUTPUTS st = [] ->
      http_status 200 (fst out) = 500%Z
      /\ Script.OUTPUTS (snd out) = []
      /\ Script.outputs_json (snd out) = Script.outputs_json st)
  /\ (forall resp,
         fst out = Ok resp ->
         exists last,
           Script.last_id (Script.OUTPUTS st) = Ok last
           /\ Script.OUTPUTS (snd out)
              = Script.OUTPUTS st
                ++ [Script.mkOutput (last + 1)%Z (Script.script_original_text resp)
                                    (Script.script_corrected_text resp)]
           /\ Script.script_original_text resp = text request
           /\ Script.outputs_json (snd out) = Script.OUTPUTS (snd out)).
Proof.
  intros out. subst out. rewrite script_correct_text_eq.
  destruct (is_None (Script.app_pipe st) || is_None (Script.app_tokenizer st)).
  { simpl. split; [discriminate|]. split; [auto | discriminate]. }
  destruct (Script.infer be tok p (text request)) as [corrected|e].
  2:{ simpl. split; [discriminate|]. split; [auto | discriminate]. }
  cbv zeta.
  destruct (Script.last_id (Script.OUTPUTS st)) as [last|e] eqn:Hlast.
  - simpl. split; [discriminate|]. split.
    + intros Hempty. rewrite Hempty in Hlast. discriminate.
    + intros resp [= <-]. exists last. simpl. auto.
  - simpl. split; [discriminate|]. split; [auto | discriminate].
Qed.

(** With one stored record the handler appends the record numbered 8. *)
Lemma script_correct_text_outcomes_witness :
  map Script.out_id
      (Script.OUTPUTS
         (snd (Script.correct_text (completing_backend (lit "HELLO")) sample_tokenizer
                 (mkPipeline cuda) (mkRequest (lit "hi"))
                 (Script.mkApp (Some (mkPipeline cuda)) (Some sample_tokenizer)
                    [Script.mkOutput 7 (lit "a") (lit "A")] [] 0))))
  = [7; 8]%Z.
Proof.
  destruct (script_correct_text_outcomes (completing_backend (lit "HELLO")) sample_tokenizer
              (mkPipeline cuda) (mkRequest (lit "hi"))
              (Script.mkApp (Some (mkPipeline cuda)) (Some sample_tokenizer)
                 [Script.mkOutput 7 (lit "a") (lit "A")] [] 0)) as [_ [_ H]].
  destruct (H _ eq_refl) as [last [Hlast [Hout _]]].
  rewrite Hout. injection Hlast as <-. reflexivity.
Defined.

(** X17: identifiers that increase strictly along [OUTPUTS] keep doing so
    through every correction and every deletion of the script; they are
    then pairwise distinct, so that a deletion removes every record with the
    identifier. *)
Theorem script_ids_stay_increasing (be : Backend) (tok : Tokenizer) (p : Pipeline)
        (st : Script.App) :
  ids_increasing (Script.OUTPUTS st) ->
  (forall request,
      ids_increasing (Script.OUTPUTS (snd (Script.correct_text be tok p request st))))
  /\ (forall text_id,
         ids_increasing (Script.OUTPUTS (snd (Script.delete_book text_id st)))
         /\ ((0 < text_id)%Z ->
             ~ In text_id
                  (map Script.out_id (Script.OUTPUTS (snd (Script.delete_book text_id st))))))
  /\ NoDup (map Script.out_id (Script.OUTPUTS st)).
Proof.
  intros Hinc. split; [|split; [|now apply ids_increasing_NoDup]].
  - intros request. rewrite script_correct_text_eq.
    destruct (is_None (Script.app_pipe st) || is_None (Script.app_tokenizer st)); trivial.
    destruct (Script.infer be tok p (text request)) as [corrected|e]; trivial.
    cbv zeta.
    destruct (Script.last_id (Script.OUTPUTS st)) as [last|e] eqn:Hlast; trivial.
    simpl. apply ids_increasing_snoc; trivial.
    eapply Forall_impl; [|apply (last_id_bounds _ _ Hinc Hlast)].
    simpl. intros. lia.
  - intros text_id. destruct (Z.leb_spec text_id 0) as [Hle|Hpos].
    + unfold Script.delete_book.
      replace (text_id <=? 0)%Z with true by (symmetry; apply Z.leb_le; lia).
      simpl. split; [trivial | lia].
    + destruct (delete_loop_spec text_id (List.length (Script.OUTPUTS st)) 0 st
                  (ids_increasing_NoDup _ Hinc)) as [H _]; [simpl; tauto | lia |].
      unfold Script.delete_book.
      replace (text_id <=? 0)%Z with false by (symmetry; apply Z.leb_gt; lia).
      cbn [snd]. rewrite H. split; [now apply ids_increasing_filter|].
      intros _ Hin. apply in_map_iff in Hin. destruct Hin as [x [Hx Hin]].
      apply filter_In in Hin. destruct Hin as [_ Hk].
      rewrite Hx, Z.eqb_refl in Hk. discriminate.
Qed.

(** The identifiers 1, 2, 3 still increase after a correction. *)
Lemma script_ids_stay_increasing_witness :
  ids_increasing
    (Script.OUTPUTS
       (snd (Script.correct_text (completing_backend (lit "HELLO")) sample_tokenizer
               (mkPipeline cuda) (mkRequest (lit "hi"))
               (Script.mkApp (Some (mkPipeline cuda)) (Some sample_tokenizer)
                  [Script.mkOutput 1 (lit "a") (lit "A");
                   Script.mkOutput 2 (lit "b") (lit "B");
                   Script.mkOutput 3 (lit "c") (lit "C")] [] 0)))).
Proof.
  apply (script_ids_stay_increasing (completing_backend (lit "HELLO")) sample_tokenizer
           (mkPipeline cuda)
           (Script.mkApp (Some (mkPipeline cuda)) (Some sample_tokenizer)
              [Script.mkOutput 1 (lit "a") (lit "A");
               Script.mkOutput 2 (lit "b") (lit "B");
               Script.mkOutput 3 (lit "c") (lit "C")] [] 0)).
  unfold ids_increasing. repeat constructor; simpl; lia.
Defined.

(** ** The runtime calls of one inference *)

(** X18: one call of [correct_arabic_text] changes nothing but the runtime:
    service, store and clock are as before.  On a loaded service its calls
    into the runtime are an initial part of: one generation on the service's
    pipeline with the primary settings, one construction of a CPU pipeline,
    one generation on the CPU with the fallback settings, all on the prompt
    built from the text, and the first of them always happens; on a service
    that is not loaded there is no call at all. *)
Theorem inference_calls (be : Backend) (text : str) (w : World) :
  let w' := snd (CorrectionService.correct_arabic_text be text w) in
  service w' = service w /\ store w' = store w /\ clock w' = clock w
  /\ (forall tok p,
         service w = mkService (Some tok) (Some p) true ->
         let g1 := EvGenerate (pipe_device p) (prompt_of text)
                              (CorrectionService.primary_args tok) in
         let g2 := EvGenerate cpu (prompt_of text) CorrectionService.fallback_args in
         trace w' = trace w ++ [g1]
         \/ trace w' = trace w ++ [g1; EvLoadPipeline cpu]
         \/ trace w' = trace w ++ [g1; EvLoadPipeline cpu; g2])
  /\ (~ loaded w -> trace w' = trace w).
Proof.
  intros w'. subst w'.
  destruct (correct_arabic_text_effects be text w) as [evs [Hw _]].
  rewrite Hw. cbn [service store clock trace].
  split; [reflexivity|]. split; [reflexivity|]. split; [reflexivity|]. split.
  - intros tok p Hs. cbv zeta.
    assert (Ht : trace (snd (CorrectionService.correct_arabic_text be text w))
                 = trace w ++ evs) by now rewrite Hw.
    rewrite <- Ht. rewrite (correct_arabic_text_two_tiers be tok p text w Hs).
    unfold two_tiers, fallback_tier.
    destruct (run_pipeline be (pipe_device p) (prompt_of text)
                (CorrectionService.primary_args tok)) as [full|e];
      [destruct (PyStr.eqb (extracted full) []);
       [|destruct (PyStr.eqb (extracted full) (strip text))]
      |destruct (isinstance_RuntimeError e)];
      try (left; reflexivity);
      (destruct (load_pipeline be cpu) as [[]|e1];
       [destruct (run_pipeline be cpu (prompt_of text) CorrectionService.fallback_args)
          as [full2|e2]; [|destruct (isinstance_RuntimeError e2)]
       |destruct (isinstance_RuntimeError e1)]);
      simpl; rewrite <- ?app_assoc; simpl; auto.
  - intros Hn.
    destruct (correct_arabic_text_guard be text w) as [[tok [p Hs]]|H].
    + exfalso. apply Hn. unfold loaded. rewrite Hs. simpl. repeat split; discriminate.
    + rewrite H in Hw. simpl in Hw. apply (f_equal trace) in Hw. simpl in Hw.
      now rewrite <- Hw.
Qed.

(** The echoing runtime on the loaded sample service: all three calls. *)
Lemma inference_calls_witness :
  trace (snd (CorrectionService.correct_arabic_text (completing_backend (lit "hi"))
                (lit "hi") loaded_world))
  = [EvGenerate cuda (prompt_of (lit "hi")) (CorrectionService.primary_args sample_tokenizer);
     EvLoadPipeline cpu;
     EvGenerate cpu (prompt_of (lit "hi")) CorrectionService.fallback_args].
Proof.
  destruct (inference_calls (completing_backend (lit "hi")) (lit "hi") loaded_world)
    as [_ [_ [_ [H _]]]].
  specialize (H sample_tokenizer (mkPipeline cuda) eq_refl). cbv zeta in H.
  destruct H as [H|[H|H]]; [exfalso|exfalso|exact H];
    apply (f_equal (@List.length Event)) in H; vm_compute in H; discriminate.
Defined.

